(** * A RAG notebook: retrieval-augmented question answering over a PDF

    Shallow embedding of [asset.ipynb].  The notebook is a sequence of
    Python cells run against one kernel namespace; it wires a prompt
    template, a retriever, a language model and an output parser into an
    LCEL chain and queries it one question at a time, as a stream and as a
    batch.

    - Part 1 embeds the Python data the cells handle (text, values,
      exceptions) and [str.format], which renders the prompt template.
    - Part 2 embeds the cells: the kernel namespace, the model-selection
      cell, the prompt cell and the retrieval chain with its [invoke] and
      [batch] entry points.
    - Part 3 models the vector index behind the retriever.
    - Part 4 states and proves the properties. *)

From Stdlib Require Import List Ascii String Bool Arith Lia Sorted Permutation.
From stdpp Require Import base option list strings gmap.


(* ===================================================================== *)
(** * Part 1: Python text, values and exceptions *)
(* ===================================================================== *)

(** Python [str] values are sequences of characters.  Identifiers (names
    of variables, dictionary keys) stay [string], the key type of the
    namespace maps. *)
Definition str : Type := list ascii.

Definition lit (s : string) : str := list_ascii_of_string s.

(** The two characters that a string literal cannot hold directly. *)
Definition nl : ascii := ascii_of_nat 10.
Definition dquote : ascii := ascii_of_nat 34.

(** [s.startswith(p)] *)
Fixpoint startswith (s p : str) {struct p} : bool :=
  match p, s with
  | [], _ => true
  | _ :: _, [] => false
  | c :: p', d :: s' => if Ascii.eqb c d then startswith s' p' else false
  end.

(** [sub in s]: does [sub] occur in [s] as a contiguous run. *)
Fixpoint contains (s sub : str) : bool :=
  startswith s sub ||
  match s with
  | [] => false
  | _ :: s' => contains s' sub
  end.

(** The same as a proposition: [s] splits around an occurrence of [sub]. *)
Definition occurs_in (sub s : str) : Prop :=
  exists pre post, s = pre ++ sub ++ post.

(** [sep.join(parts)] *)
Fixpoint join (sep : str) (parts : list str) : str :=
  match parts with
  | [] => []
  | [p] => p
  | p :: rest => p ++ sep ++ join sep rest
  end.

(** Exceptions the cells can raise.  [ExternalError] stands for whatever a
    third-party call (model construction, generation, retrieval) raises. *)
Inductive PyExc : Type :=
| NameError (name : string)
| KeyError (key : string)
| IndexError (msg : string)
| ValueError (msg : string)
| TypeError (msg : string)
| AttributeError (attr : string)
| ExternalError (origin : string).

Inductive result (A : Type) : Type :=
| Ok (a : A)
| Raise (e : PyExc).
Arguments Ok {A} a.
Arguments Raise {A} e.

Definition rbind {A B} (r : result A) (k : A -> result B) : result B :=
  match r with
  | Ok a => k a
  | Raise e => Raise e
  end.

Definition is_ok {A} (r : result A) : bool :=
  match r with Ok _ => true | Raise _ => false end.

(** A page of the loaded PDF, as [PyPDFLoader.load_and_split] yields it. *)
Record Document : Type := mkDocument {
  page_content : str;
  source : str;
  page : nat
}.

(** Objects of the third-party classes the notebook instantiates. *)
Inductive Obj : Type :=
| ChatOpenAI (api_key : option str) (model : str)
| OpenAIEmbeddings
| Ollama (model : str)
| OllamaEmbeddings
| HuggingFaceEmbeddings (model_name : str).

(** [PromptTemplate]: the template text and the variables it mentions. *)
Record PromptTemplate : Type := mkPromptTemplate {
  pt_template : str;
  input_variables : list string
}.

(** The values bound in the kernel namespace or flowing through the chain:
    [None], strings, the list of pages a retriever returns, library objects,
    imported names, the prompt value a template renders to, and the message
    a chat model replies with. *)
Inductive Value : Type :=
| VNone
| VStr (s : str)
| VDocs (ds : list Document)
| VObj (o : Obj)
| VImported (qualname : string)
| VPromptValue (text : str)
| VMessage (content : str).

(** What the notebook takes from outside: the process environment (after
    [load_dotenv()]), whether a constructor call returns or raises, the
    language model's reply to a text, and the [repr] of library objects. *)
Class Externals : Type := {
  getenv : string -> option str;
  construct : Obj -> result unit;
  generate : Obj -> str -> result str;
  repr_Document : Document -> str;
  repr_opaque : Value -> str
}.

Section PythonValues.
Context `{Externals}.

(** [str(v)]: a string is itself, a list is the bracketed, comma-separated
    [repr] of its elements. *)
Definition py_str (v : Value) : str :=
  match v with
  | VNone => lit "None"
  | VStr s => s
  | VDocs ds => lit "[" ++ join (lit ", ") (map repr_Document ds) ++ lit "]"
  | _ => repr_opaque v
  end.
End PythonValues.

(* ===================================================================== *)
(** ** [str.format] with named replacement fields *)
(* ===================================================================== *)

(** A format string is literal text interleaved with replacement fields.
    [{{] and [}}] are escaped braces.  The embedding covers fields that are
    plain names, the only kind the notebook's template uses; conversions
    ([!r]), format specs ([:>8]) and attribute or index access are rejected
    as outside the embedded fragment. *)
Inductive Piece : Type :=
| Literal (text : str)
| Field (name : string).

Inductive ScanMode : Type :=
| InText (acc : str)
| InField (acc : str).

Definition is_char (c : ascii) (s : string) : bool :=
  match s with
  | String d EmptyString => Ascii.eqb c d
  | _ => false
  end.

Definition text_piece (acc : str) : list Piece :=
  match acc with
  | [] => []
  | _ => [Literal acc]
  end.

Definition field_syntax_unsupported (c : ascii) : bool :=
  is_char c "{" || is_char c "!" || is_char c ":" || is_char c "." || is_char c "[".

Fixpoint scan_format (s : str) (mode : ScanMode) (done : list Piece)
  : result (list Piece) :=
  match s with
  | [] =>
      match mode with
      | InText acc => Ok (done ++ text_piece acc)
      | InField _ => Raise (ValueError "expected '}' before end of string")
      end
  | c :: rest =>
      match mode with
      | InText acc =>
          if is_char c "{" then
            match rest with
            | c' :: rest' =>
                if is_char c' "{"
                then scan_format rest' (InText (acc ++ [c])) done
                else scan_format rest (InField []) (done ++ text_piece acc)
            | [] => Raise (ValueError "Single '{' encountered in format string")
            end
          else if is_char c "}" then
            match rest with
            | c' :: rest' =>
                if is_char c' "}"
                then scan_format rest' (InText (acc ++ [c])) done
                else Raise (ValueError "Single '}' encountered in format string")
            | [] => Raise (ValueError "Single '}' encountered in format string")
            end
          else scan_format rest (InText (acc ++ [c])) done
      | InField acc =>
          if is_char c "}" then
            scan_format rest (InText []) (done ++ [Field (string_of_list_ascii acc)])
          else if field_syntax_unsupported c then
            Raise (ValueError "replacement field outside the embedded fragment")
          else scan_format rest (InField (acc ++ [c])) done
      end
  end.

(** [string.Formatter().parse(template)] *)
Definition parse_format (template : str) : result (list Piece) :=
  scan_format template (InText []) [].

(** A field with an empty or all-digit name refers to a positional
    argument. *)
Fixpoint all_digits (s : string) : bool :=
  match s with
  | EmptyString => true
  | String c rest => (Nat.leb 48 (nat_of_ascii c) && Nat.leb (nat_of_ascii c) 57) && all_digits rest
  end.

Definition field_names (ps : list Piece) : list string :=
  flat_map (fun p => match p with Field n => [n] | Literal _ => [] end) ps.

Section Formatting.
Context `{Externals}.

(** Substitution is one pass over the pieces: a substituted value is
    never scanned for fields again.  Only keyword arguments are passed, so
    a positional field finds nothing. *)
Fixpoint vformat (ps : list Piece) (kwargs : gmap string Value) : result str :=
  match ps with
  | [] => Ok []
  | Literal t :: ps' => rbind (vformat ps' kwargs) (fun r => Ok (t ++ r))
  | Field n :: ps' =>
      if all_digits n then Raise (IndexError "Replacement index out of range")
      else
        match kwargs !! n with
        | Some v => rbind (vformat ps' kwargs) (fun r => Ok (py_str v ++ r))
        | None => Raise (KeyError n)
        end
  end.

(** [template.format] applied to keyword arguments *)
Definition str_format (template : str) (kwargs : gmap string Value) : result str :=
  rbind (parse_format template) (fun ps => vformat ps kwargs).
End Formatting.

(** [PromptTemplate.from_template(template)]: parses the template once to
    collect its variables, so a malformed template is refused here. *)
Definition from_template (template : str) : result PromptTemplate :=
  rbind (parse_format template)
        (fun ps => Ok (mkPromptTemplate template (field_names ps))).

Section PromptFormatting.
Context `{Externals}.

(** [prompt.format] applied to keyword arguments *)
Definition prompt_format (p : PromptTemplate) (kwargs : gmap string Value)
  : result str :=
  str_format (pt_template p) kwargs.
End PromptFormatting.

(** The template of the prompt cell, character for character. *)
Definition template : str :=
  [nl] ++
  lit "APlease answer the question based on the below context. If you can't " ++ [nl] ++
  lit "answer the question, reply " ++ [dquote] ++ lit "I don't know" ++ [dquote] ++ lit "." ++ [nl] ++
  [nl] ++
  lit "Context: {context}" ++ [nl] ++
  [nl] ++
  lit "Question: {question}" ++ [nl].

(** The literal text around the two fields of [template]. *)
Definition template_head : str :=
  [nl] ++
  lit "APlease answer the question based on the below context. If you can't " ++ [nl] ++
  lit "answer the question, reply " ++ [dquote] ++ lit "I don't know" ++ [dquote] ++ lit "." ++ [nl] ++
  [nl] ++
  lit "Context: ".
Definition template_mid : str := [nl; nl] ++ lit "Question: ".
Definition template_tail : str := [nl].

Definition tok_context : str := lit "{context}".
Definition tok_question : str := lit "{question}".

Section PromptCell.
Context `{Externals}.

(** The prompt cell builds the prompt from [template] and renders it:
<<
    prompt = PromptTemplate.from_template(template)
    print(prompt.format(context="Here is the context", question="Here is the question"))
>>
    [build C Q] is [prompt.format(context=C, question=Q)] for that
    prompt. *)
Definition build (C Q : str) : result str :=
  rbind (from_template template)
        (fun prompt =>
           prompt_format prompt {[ "context" := VStr C; "question" := VStr Q ]}).
End PromptCell.

(** Stand-ins for the outside world, to run the cells on concrete inputs:
    no API key in the environment, constructors that return, and a model
    that echoes the text it is given. *)
Definition echo_externals : Externals :=
  {| getenv := fun _ => None;
     construct := fun _ => Ok tt;
     generate := fun _ prompt => Ok prompt;
     repr_Document := fun d => lit "Document(page_content='" ++ page_content d ++ lit "')";
     repr_opaque := fun _ => lit "<object>" |}.

(* ===================================================================== *)
(** * Part 2: the notebook's cells *)
(* ===================================================================== *)

(** ** The kernel: one global namespace and the printed output *)

Record Kernel : Type := mkKernel {
  globals : gmap string Value;
  stdout : list str
}.

(** A freshly started kernel binds none of the notebook's names. *)
Definition fresh_kernel : Kernel := mkKernel ∅ [].

(** A cell is a computation over the kernel that returns or raises.  What
    it bound or printed before raising stays in the kernel. *)
Definition Cell (A : Type) : Type := Kernel -> result A * Kernel.

Definition cret {A} (a : A) : Cell A := fun k => (Ok a, k).

Definition cbind {A B} (c : Cell A) (f : A -> Cell B) : Cell B :=
  fun k =>
    match c k with
    | (Ok a, k') => f a k'
    | (Raise e, k') => (Raise e, k')
    end.

Global Instance cell_ret : MRet Cell := @cret.
Global Instance cell_bind : MBind Cell := fun A B f c => cbind c f.

(** Lift the outcome of a call that does not touch the kernel. *)
Definition lift {A} (r : result A) : Cell A := fun k => (r, k).

(** Reading a name: [NameError] when the namespace does not bind it. *)
Definition load (name : string) : Cell Value :=
  fun k =>
    match globals k !! name with
    | Some v => (Ok v, k)
    | None => (Raise (NameError name), k)
    end.

(** [name = v] *)
Definition store (name : string) (v : Value) : Cell unit :=
  fun k => (Ok tt, mkKernel (<[name := v]> (globals k)) (stdout k)).

(** [import name] and [from module import name] bind [name]. *)
Definition import_name (qualname name : string) : Cell unit :=
  store name (VImported qualname).

Section Cells.
Context `{Externals}.

(** [print(v)] *)
Definition print (v : Value) : Cell unit :=
  fun k => (Ok tt, mkKernel (globals k) (stdout k ++ [py_str v])).

(** The call itself, once the callee and the arguments are evaluated: the
    constructor returns the object or raises. *)
Definition instantiate (o : Obj) : Cell Value :=
  lift (construct o);;
  cret (VObj o).

(** A value passed as [api_key=]: [None] or a string. *)
Definition as_api_key (v : Value) : result (option str) :=
  match v with
  | VNone => Ok None
  | VStr s => Ok (Some s)
  | _ => Raise (TypeError "api_key")
  end.

Definition as_str (v : Value) : result str :=
  match v with
  | VStr s => Ok s
  | _ => Raise (TypeError "str expected")
  end.

(** [model.invoke(text)]: a completion model answers with a string, a chat
    model with a message. *)
Definition model_invoke (m : Value) (text : str) : result Value :=
  match m with
  | VObj (Ollama name) =>
      rbind (generate (Ollama name) text) (fun r => Ok (VStr r))
  | VObj (ChatOpenAI key name) =>
      rbind (generate (ChatOpenAI key name) text) (fun r => Ok (VMessage r))
  | _ => Raise (AttributeError "invoke")
  end.

(** First code cell.  [MODEL] is the line a reader edits: the source keeps
    ["gpt-3.5-turbo"] commented out next to ["llama3.1"].
<<
    import os
    from dotenv import load_dotenv
    load_dotenv()
    OPENAI_API_KEY = os.getenv("OPENAI_API_KEY")
    MODEL = "llama3.1"
>> *)
Definition cell_settings (MODEL : str) : Cell unit :=
  import_name "os" "os";;
  import_name "dotenv.load_dotenv" "load_dotenv";;
  load "load_dotenv";;
  load "os";;
  store "OPENAI_API_KEY"
        (match getenv "OPENAI_API_KEY" with Some s => VStr s | None => VNone end);;
  store "MODEL" (VStr MODEL).

Definition notebook_MODEL : str := lit "llama3.1".

(** Second code cell.
<<
    if MODEL.startswith("gpt"):
        model= ChatOpenAI(api_key=OPENAI_API_KEY, model=MODEL)
        embeddings = OpenAIEmbeddings()
    else:
        model = Ollama(model=MODEL)
        embeddings = OllamaEmbeddings()
        response = model.invoke("Where is the capital city of Afghanistan?")
    print(response)
>> *)
Definition cell_init_model : Cell unit :=
  import_name "langchain_openai.embeddings.OpenAIEmbeddings" "OpenAIEmbeddings";;
  import_name "langchain_community.embeddings.OllamaEmbeddings" "OllamaEmbeddings";;
  import_name "langchain_community.llms.Ollama" "Ollama";;
  import_name "langchain_openai.chat_models.ChatOpenAI" "ChatOpenAI";;
  MODEL ← load "MODEL";
  name ← lift (as_str MODEL);
  (if startswith name (lit "gpt") then
     load "ChatOpenAI";;
     key ← load "OPENAI_API_KEY";
     api_key ← lift (as_api_key key);
     model_name ← load "MODEL";
     model_str ← lift (as_str model_name);
     model ← instantiate (ChatOpenAI api_key model_str);
     store "model" model;;
     load "OpenAIEmbeddings";;
     embeddings ← instantiate OpenAIEmbeddings;
     store "embeddings" embeddings
   else
     load "Ollama";;
     model_name ← load "MODEL";
     model_str ← lift (as_str model_name);
     model ← instantiate (Ollama model_str);
     store "model" model;;
     load "OllamaEmbeddings";;
     embeddings ← instantiate OllamaEmbeddings;
     store "embeddings" embeddings;;
     m ← load "model";
     response ← lift (model_invoke m (lit "Where is the capital city of Afghanistan?"));
     store "response" response);;
  response ← load "response";
  print response.

(** Running the first two cells, in order, on a fresh kernel. *)
Definition run_init (MODEL : str) : result unit * Kernel :=
  (cell_settings MODEL ;; cell_init_model) fresh_kernel.
End Cells.

(* ===================================================================== *)
(** ** The LCEL chain *)
(* ===================================================================== *)

(** What flows between the steps of a chain: a single value, or a mapping
    from keys to values (the input [{"question": q}] and the output of the
    dictionary step). *)
Inductive Data : Type :=
| Scalar (v : Value)
| Dict (d : gmap string Value).

(** A runnable, by its [invoke]. *)
Definition Runnable : Type := Data -> result Data.

(** A retriever: the pages found for a query text. *)
Definition Retriever : Type := str -> result (list Document).

(** [operator.itemgetter(key)], coerced to a runnable by [|]. *)
Definition itemgetter (key : string) : Runnable :=
  fun x =>
    match x with
    | Dict d =>
        match d !! key with
        | Some v => Ok (Scalar v)
        | None => Raise (KeyError key)
        end
    | Scalar _ => Raise (TypeError "subscript")
    end.

(** [retriever.invoke(query)] *)
Definition retriever_step (retriever : Retriever) : Runnable :=
  fun x =>
    match x with
    | Scalar (VStr q) => rbind (retriever q) (fun ds => Ok (Scalar (VDocs ds)))
    | _ => Raise (TypeError "retriever input")
    end.

(** [RunnableSequence.invoke]: each step receives the previous one's
    output. *)
Fixpoint sequence_invoke (steps : list Runnable) (x : Data) : result Data :=
  match steps with
  | [] => Ok x
  | step :: rest => rbind (step x) (sequence_invoke rest)
  end.

(** A dictionary literal on the left of [|] becomes a [RunnableParallel]:
    every entry runs on the same input and the outputs are gathered under
    the entries' keys. *)
Fixpoint parallel_invoke (entries : list (string * Runnable)) (x : Data)
  : result (gmap string Value) :=
  match entries with
  | [] => Ok ∅
  | (key, r) :: rest =>
      rbind (r x) (fun out =>
      rbind (parallel_invoke rest x) (fun d =>
        match out with
        | Scalar v => Ok (<[key := v]> d)
        | Dict _ => Raise (TypeError "nested mapping outside the embedded fragment")
        end))
  end.

Definition parallel_step (entries : list (string * Runnable)) : Runnable :=
  fun x => rbind (parallel_invoke entries x) (fun d => Ok (Dict d)).

(** [StrOutputParser().invoke]: the text of a message, or the string as it
    is. *)
Definition StrOutputParser : Runnable :=
  fun x =>
    match x with
    | Scalar (VStr s) => Ok (Scalar (VStr s))
    | Scalar (VMessage c) => Ok (Scalar (VStr c))
    | _ => Raise (TypeError "parser input")
    end.

(** The first exception in input order aborts the whole list; otherwise
    the outputs come back in input order. *)
Fixpoint each {A B} (f : A -> result B) (xs : list A) : result (list B) :=
  match xs with
  | [] => Ok []
  | x :: rest =>
      rbind (f x) (fun y => rbind (each f rest) (fun ys => Ok (y :: ys)))
  end.

(** [RunnableSequence.batch(inputs)] as the notebook calls it, without
    [return_exceptions=True]: the first step runs on every input, then the
    second step on every output, and so on; an exception raised for any
    input propagates out of the call. *)
Fixpoint sequence_batch (steps : list Runnable) (xs : list Data)
  : result (list Data) :=
  match steps with
  | [] => Ok xs
  | step :: rest => rbind (each step xs) (sequence_batch rest)
  end.

Section Chain.
Context `{Externals}.

(** [prompt.invoke(mapping)]: the template rendered with the mapping's
    values, as a prompt value. *)
Definition prompt_step (p : PromptTemplate) : Runnable :=
  fun x =>
    match x with
    | Dict d => rbind (prompt_format p d) (fun text => Ok (Scalar (VPromptValue text)))
    | Scalar _ => Raise (TypeError "prompt input")
    end.

(** [model.invoke(prompt_value)] *)
Definition model_step (model : Value) : Runnable :=
  fun x =>
    match x with
    | Scalar (VPromptValue text) => rbind (model_invoke model text) (fun r => Ok (Scalar r))
    | Scalar (VStr text) => rbind (model_invoke model text) (fun r => Ok (Scalar r))
    | _ => Raise (TypeError "model input")
    end.

(** The dictionary at the head of the chain: the pages retrieved for the
    question under ["context"], the question itself under ["question"]. *)
Definition context_and_question (retriever : Retriever) : Runnable :=
  parallel_step
    [ ("context", sequence_invoke [itemgetter "question"; retriever_step retriever]);
      ("question", itemgetter "question") ].

(** The retrieval chain.
<<
    chain = (
        {
            "context": itemgetter("question") | retriever,
            "question": itemgetter("question")
        }
        |prompt
        |model
        |parser
    )
>> *)
Definition chain (retriever : Retriever) (prompt : PromptTemplate) (model : Value)
  : list Runnable :=
  [ context_and_question retriever;
    prompt_step prompt;
    model_step model;
    StrOutputParser ].

(** The mapping the chain takes: [{"question": q}] *)
Definition question_input (q : str) : Data :=
  Dict {[ "question" := VStr q ]}.

(** [chain.invoke({"question": q})] *)
Definition chain_invoke (retriever : Retriever) (prompt : PromptTemplate)
           (model : Value) (q : str) : result Data :=
  sequence_invoke (chain retriever prompt model) (question_input q).

(** [chain.batch([{"question": q} for q in questions])] *)
Definition chain_batch (retriever : Retriever) (prompt : PromptTemplate)
           (model : Value) (questions : list str) : result (list Data) :=
  sequence_batch (chain retriever prompt model) (map question_input questions).

(** The prompt the chain hands to the model for a question: what its first
    two steps produce. *)
Definition chain_prompt (retriever : Retriever) (prompt : PromptTemplate) (q : str)
  : result Data :=
  sequence_invoke [context_and_question retriever; prompt_step prompt] (question_input q).
End Chain.

(** The prompt of the prompt cell: what [from_template] makes of
    [template]. *)
Definition notebook_prompt : PromptTemplate :=
  mkPromptTemplate template ["context"; "question"].

(** A retriever that finds nothing, and one that fails on questions
    starting with ["?"] and finds nothing otherwise. *)
Definition empty_retriever : Retriever := fun _ => Ok [].
Definition picky_retriever : Retriever :=
  fun q => if startswith q (lit "?") then Raise (ExternalError "retriever") else Ok [].

(** The local model the notebook selects. *)
Definition llama : Value := VObj (Ollama notebook_MODEL).

(* ===================================================================== *)
(** * Part 3: the vector index behind the retriever *)
(* ===================================================================== *)

(** The notebook builds its store with
    [DocArrayInMemorySearch.from_documents(pages, embedding=embeddings)] and
    queries it through [vectorstore.as_retriever()].  The store's code is
    not among the notebook's sources, so the index is modelled from the
    specification's component design (section 4.1). *)

(** Modelled from the spec: the Chunk of the data model (the store's own
    record type is missing).  An immutable unit of retrievable text with a
    stable id and a reference to its place in the source document. *)
Record Chunk : Type := mkChunk {
  chunk_id : nat;
  text : str;
  sourceRef : str * nat
}.

(** Modelled from the spec: the similarity metric of the missing store,
    "cosine similarity (or equivalent normalized inner-product metric)".
    The numbers of a vector, the scores and their comparison are taken as
    given. *)
Class Metric : Type := {
  Coord : Type;
  Score : Type;
  similarity : list Coord -> list Coord -> Score;
  score_le : Score -> Score -> bool
}.

(** Scores compare as a total preorder. *)
Class MetricOrder (M : Metric) : Prop := {
  score_le_total : forall a b : Score, score_le a b = true \/ score_le b a = true;
  score_le_trans : forall a b c : Score,
    score_le a b = true -> score_le b c = true -> score_le a c = true
}.

(** Modelled from the spec: the error taxonomy of section 7 (the store's
    exceptions are missing). *)
Inductive Error : Type :=
| LoadError
| DimensionMismatch
| EmbeddingError
| GenerationError
| TemplateError.

Inductive outcome (A : Type) : Type :=
| Success (a : A)
| Failure (e : Error).
Arguments Success {A} a.
Arguments Failure {A} e.

Section VectorIndex.
Context `{M : Metric}.

Definition EmbeddingVector : Type := list Coord.

(** Modelled from the spec: an IndexEntry pairs a Chunk with its
    EmbeddingVector (the store's entry type is missing). *)
Record IndexEntry : Type := mkEntry {
  chunk : Chunk;
  vector : EmbeddingVector
}.

(** Modelled from the spec: the Vector Index holds its entries in
    insertion order (the store's state is missing). *)
Record VectorIndex : Type := mkIndex {
  entries : list IndexEntry
}.

(** Modelled from the spec: "D fixed by the first inserted vector" (the
    store's dimension check is missing). *)
Definition dimension (idx : VectorIndex) : option nat :=
  match entries idx with
  | [] => None
  | e :: _ => Some (length (vector e))
  end.

(** Modelled from the spec: [add(chunk, vector)] of the missing store:
    "appends an IndexEntry.  Fails with DimensionMismatch if
    vector.length != D.  No deduplication." *)
Definition add (c : Chunk) (v : EmbeddingVector) (idx : VectorIndex)
  : outcome unit * VectorIndex :=
  match dimension idx with
  | Some D =>
      if Nat.eqb (length v) D
      then (Success tt, mkIndex (entries idx ++ [mkEntry c v]))
      else (Failure DimensionMismatch, idx)
  | None => (Success tt, mkIndex (entries idx ++ [mkEntry c v]))
  end.

(** A RetrievalResult: (Chunk, similarity score) pairs. *)
Definition RetrievalResult : Type := list (Chunk * Score).

(** Modelled from the spec: the ranking step of the missing store's
    search, "Ties broken by insertion order (earlier entries rank
    higher)": a candidate goes after every kept item that scores at least
    as high. *)
Fixpoint place {A} (sc : A -> Score) (x : A) (kept : list A) : list A :=
  match kept with
  | [] => [x]
  | y :: rest =>
      if score_le (sc x) (sc y) then y :: place sc x rest else x :: y :: rest
  end.

(** Modelled from the spec: "brute-force linear scan ... maintaining a
    bounded top-k via partial selection": after each candidate only the
    [k] best seen so far are kept. *)
Definition select_top {A} (sc : A -> Score) (k : nat) (candidates : list A) : list A :=
  fold_left (fun kept x => firstn k (place sc x kept)) candidates [].

(** The scan without the bound: every candidate is kept. *)
Definition rank_all {A} (sc : A -> Score) (candidates : list A) : list A :=
  fold_left (fun kept x => place sc x kept) candidates [].

(** Modelled from the spec: "computing similarity against every stored
    vector", in insertion order (part of the missing store's search). *)
Definition scored (q : EmbeddingVector) (idx : VectorIndex) : list (Chunk * Score) :=
  map (fun e => (chunk e, similarity q (vector e))) (entries idx).

(** Modelled from the spec: [search(queryVector, k)] of the missing store:
    "returns RetrievalResult of at most k entries ranked by descending
    cosine similarity ...  Fails with DimensionMismatch if
    queryVector.length != D.  Returns an empty RetrievalResult if the
    index holds zero entries (not an error)." *)
Definition search (q : EmbeddingVector) (k : nat) (idx : VectorIndex)
  : outcome RetrievalResult :=
  match dimension idx with
  | None => Success []
  | Some D =>
      if Nat.eqb (length q) D
      then Success (select_top snd k (scored q idx))
      else Failure DimensionMismatch
  end.

(** The same scan with every candidate tagged by its insertion position;
    forgetting the tags gives the result of [search]. *)
Definition ranking (q : EmbeddingVector) (k : nat) (idx : VectorIndex)
  : list (nat * (Chunk * Score)) :=
  select_top (fun p => snd (snd p)) k
             (combine (seq 0 (length (entries idx))) (scored q idx)).

(** Two scores tie when each is at most the other. *)
Definition tie (a b : Score) : bool := score_le a b && score_le b a.

(** [ahead sc pos a b]: [a] may stand before [b] in a ranking: it scores at
    least as high, and on a tie it was inserted first. *)
Definition ahead {A} (sc : A -> Score) (pos : A -> nat) (a b : A) : Prop :=
  score_le (sc b) (sc a) = true
  /\ (score_le (sc a) (sc b) = true -> pos a < pos b).

(** A query vector the index accepts: of the established dimension, or
    any vector while the index is empty. *)
Definition valid_query (q : EmbeddingVector) (idx : VectorIndex) : Prop :=
  forall D, dimension idx = Some D -> length q = D.

(** The invariant of the data model: all vectors of an index share one
    dimension. *)
Definition uniform (D : nat) (idx : VectorIndex) : Prop :=
  Forall (fun e => length (vector e) = D) (entries idx).
End VectorIndex.

(** The inner product on integer vectors: the cosine similarity when the
    vectors are unit vectors, as the stub embedder of the specification's
    scenario returns. *)
Fixpoint dot (u v : list Z) : Z :=
  match u, v with
  | a :: u', b :: v' => (a * b + dot u' v')%Z
  | _, _ => 0%Z
  end.

Definition inner_product_metric : Metric :=
  {| Coord := Z; Score := Z; similarity := dot; score_le := Z.leb |}.

Definition entry (c : Chunk) (v : list Z) : @IndexEntry inner_product_metric :=
  @mkEntry inner_product_metric c v.

(** The two chunks of the specification's scenario, embedded as orthogonal
    unit vectors. *)
Definition kabul : Chunk :=
  mkChunk 0 (lit "Kabul is the capital of Afghanistan.") (lit "afghanistan.pdf", 0).
Definition bamiyan : Chunk :=
  mkChunk 1 (lit "Bamiyan is known for its ancient Buddha statues.") (lit "afghanistan.pdf", 1).

Definition scenario_index : @VectorIndex inner_product_metric :=
  mkIndex [entry kabul [1; 0]%Z; entry bamiyan [0; 1]%Z].

(* ===================================================================== *)
(** * Part 4: properties *)
(* ===================================================================== *)

(** ** Text *)

Lemma startswith_spec (s p : str) :
  startswith s p = true <-> exists rest, s = p ++ rest.
Proof.
  revert s. induction p as [|c p IH]; intros s; simpl.
  - split; [intros _; exists s; reflexivity | intros _; reflexivity].
  - destruct s as [|d s].
    + split; [discriminate | intros [rest Hr]; discriminate].
    + destruct (Ascii.eqb c d) eqn:E.
      * apply Ascii.eqb_eq in E as ->. rewrite IH.
        split; intros [rest Hr]; exists rest; congruence.
      * split; [discriminate|]. intros [rest Hr]. injection Hr as -> _.
        rewrite Ascii.eqb_refl in E. discriminate.
Qed.

Lemma occurs_in_nil_r (s : str) : occurs_in s [] -> s = [].
Proof.
  intros (pre & post & E). symmetry in E.
  apply app_eq_nil in E as [_ E]. apply app_eq_nil in E as [E _]. exact E.
Qed.

Lemma contains_spec (s sub : str) : contains s sub = true <-> occurs_in sub s.
Proof.
  induction s as [|c s IH]; simpl.
  - rewrite orb_false_r, startswith_spec. split.
    + intros [rest E]. exists [], rest. exact E.
    + intros Ho. apply occurs_in_nil_r in Ho as ->. exists []. reflexivity.
  - rewrite orb_true_iff, IH, startswith_spec. split.
    + intros [[rest E] | (pre & post & E)].
      * exists [], rest. exact E.
      * exists (c :: pre), post. simpl. congruence.
    + intros (pre & post & E). destruct pre as [|d pre].
      * left. exists post. exact E.
      * right. injection E as _ E. exists pre, post. exact E.
Qed.

Lemma occurs_in_l (s a b : str) : occurs_in s a -> occurs_in s (a ++ b).
Proof.
  intros (pre & post & ->). exists pre, (post ++ b).
  repeat rewrite <- app_assoc. reflexivity.
Qed.

Lemma occurs_in_r (s a b : str) : occurs_in s b -> occurs_in s (a ++ b).
Proof.
  intros (pre & post & ->). exists (a ++ pre), post.
  repeat rewrite <- app_assoc. reflexivity.
Qed.

Lemma occurs_in_In (s t : str) (c : ascii) : occurs_in s t -> In c s -> In c t.
Proof.
  intros (pre & post & ->) Hc. apply in_or_app. right.
  apply in_or_app. left. exact Hc.
Qed.

(** An occurrence cannot run across a character that the sought text does
    not contain. *)
Lemma occurs_in_app_sep (s a b : str) (x : ascii) :
  ~ In x s -> occurs_in s (a ++ x :: b) -> occurs_in s a \/ occurs_in s b.
Proof.
  intros Hx (pre & post & E). symmetry in E.
  apply app_eq_app in E as [l [[-> E] | [-> E]]].
  - destruct l as [|y l]; simpl in E.
    + destruct s as [|y s]; simpl in E.
      * left. exists a, []. rewrite app_nil_r. reflexivity.
      * injection E as -> _. destruct Hx. left. reflexivity.
    + injection E as _ ->. right. exists l, post. reflexivity.
  - apply app_eq_app in E as [m [[-> E] | [-> E]]].
    + destruct m as [|y m]; simpl in E.
      * left. exists pre, []. rewrite !app_nil_r. reflexivity.
      * injection E as -> _. destruct Hx. apply in_or_app. right. left. reflexivity.
    + left. exists pre, m. reflexivity.
Qed.

Lemma not_In_by_eval (x : ascii) (l : str) :
  existsb (Ascii.eqb x) l = false -> ~ In x l.
Proof.
  intros He Hi. enough (existsb (Ascii.eqb x) l = true) by congruence.
  apply existsb_exists. exists x. split; [exact Hi | apply Ascii.eqb_refl].
Qed.

(** ** The prompt template *)

Lemma parse_template :
  parse_format template =
  Ok [Literal template_head; Field "context"; Literal template_mid;
      Field "question"; Literal template_tail].
Proof. vm_compute. reflexivity. Qed.

Lemma from_template_template :
  from_template template = Ok (mkPromptTemplate template ["context"; "question"]).
Proof. unfold from_template. rewrite parse_template. reflexivity. Qed.

Section PromptFacts.
Context `{Externals}.

Lemma prompt_format_template (d : gmap string Value) (c q : Value) :
  d !! "context" = Some c ->
  d !! "question" = Some q ->
  str_format template d =
  Ok (template_head ++ py_str c ++ template_mid ++ py_str q ++ template_tail).
Proof.
  intros Hc Hq. unfold str_format. rewrite parse_template.
  cbn [rbind vformat].
  change (all_digits "context") with false. change (all_digits "question") with false.
  cbv iota. rewrite Hc, Hq. cbn [rbind].
  rewrite app_nil_r. reflexivity.
Qed.

Lemma build_eq (C Q : str) :
  build C Q = Ok (template_head ++ C ++ template_mid ++ Q ++ template_tail).
Proof.
  unfold build. rewrite from_template_template. cbn [rbind].
  unfold prompt_format. cbn [pt_template].
  apply (prompt_format_template _ (VStr C) (VStr Q)).
  - apply lookup_insert_eq.
  - rewrite lookup_insert_ne by done. apply lookup_singleton_eq.
Qed.
End PromptFacts.

(** Where a piece of text without spaces or line breaks, and with an
    opening brace, can sit in a rendered prompt: only inside one of the two
    substituted values. *)
Lemma occurs_in_rendered (tok C Q : str) :
  In "{"%char tok -> ~ In " "%char tok -> ~ In nl tok ->
  occurs_in tok (template_head ++ C ++ template_mid ++ Q ++ template_tail) ->
  occurs_in tok C \/ occurs_in tok Q.
Proof.
  intros Hbrace Hsp Hnl Ho.
  assert (Hlit : forall l : str,
             existsb (Ascii.eqb "{"%char) l = false -> ~ occurs_in tok l).
  { intros l Hl Hin. apply (not_In_by_eval _ _ Hl).
    apply (occurs_in_In tok); assumption. }
  change template_head with (removelast template_head ++ [" "%char]) in Ho.
  rewrite <- app_assoc in Ho. cbn [app] in Ho.
  destruct (occurs_in_app_sep _ _ _ _ Hsp Ho) as [Hhead | Ho1]; clear Ho.
  { exfalso. revert Hhead. apply Hlit. reflexivity. }
  change template_mid with ([nl] ++ [nl] ++ lit "Question:" ++ [" "%char]) in Ho1.
  repeat rewrite <- app_assoc in Ho1. cbn [app] in Ho1.
  destruct (occurs_in_app_sep _ _ _ _ Hnl Ho1) as [HC | Ho2]; clear Ho1.
  { left. exact HC. }
  change (nl :: ?l) with ([] ++ nl :: l) in Ho2.
  destruct (occurs_in_app_sep _ _ _ _ Hnl Ho2) as [Hnil | Ho3]; clear Ho2.
  { exfalso. revert Hnil. apply Hlit. reflexivity. }
  destruct (occurs_in_app_sep _ _ _ _ Hsp Ho3) as [Hmid | Ho4]; clear Ho3.
  { exfalso. revert Hmid. apply Hlit. reflexivity. }
  unfold template_tail in Ho4.
  destruct (occurs_in_app_sep _ _ _ _ Hnl Ho4) as [HQ | Hnil].
  { right. exact HQ. }
  exfalso. revert Hnil. apply Hlit. reflexivity.
Qed.

Lemma tok_context_shape :
  In "{"%char tok_context /\ ~ In " "%char tok_context /\ ~ In nl tok_context.
Proof.
  split; [left; reflexivity|].
  split; apply not_In_by_eval; reflexivity.
Qed.

Lemma tok_question_shape :
  In "{"%char tok_question /\ ~ In " "%char tok_question /\ ~ In nl tok_question.
Proof.
  split; [left; reflexivity|].
  split; apply not_In_by_eval; reflexivity.
Qed.

(** C7: for every context string C and question string Q, [build C Q]
    returns a single string, the template's literal text with C in place of
    [{context}] and Q in place of [{question}]: both placeholders of the
    template are resolved.  The string contains C and Q, and the text of a
    placeholder token occurs in it only where C or Q itself holds that text
    (substitution is a single pass, so a value is not scanned again). *)
Theorem build_substitutes_context_and_question `{Externals} (C Q : str) :
  exists out,
    build C Q = Ok out
    /\ out = template_head ++ C ++ template_mid ++ Q ++ template_tail
    /\ occurs_in C out /\ occurs_in Q out
    /\ (occurs_in tok_context out <-> occurs_in tok_context C \/ occurs_in tok_context Q)
    /\ (occurs_in tok_question out <-> occurs_in tok_question C \/ occurs_in tok_question Q).
Proof.
  exists (template_head ++ C ++ template_mid ++ Q ++ template_tail).
  assert (HC : forall s, occurs_in s C ->
             occurs_in s (template_head ++ C ++ template_mid ++ Q ++ template_tail)).
  { intros s Hs. apply occurs_in_r, occurs_in_l, Hs. }
  assert (HQ : forall s, occurs_in s Q ->
             occurs_in s (template_head ++ C ++ template_mid ++ Q ++ template_tail)).
  { intros s Hs. apply occurs_in_r, occurs_in_r, occurs_in_r, occurs_in_l, Hs. }
  split; [apply build_eq|]. split; [reflexivity|].
  split; [apply HC; exists [], []; rewrite app_nil_r; reflexivity|].
  split; [apply HQ; exists [], []; rewrite app_nil_r; reflexivity|].
  split; (split; [|intros [Hs | Hs]; [apply HC | apply HQ]; exact Hs]).
  - destruct tok_context_shape as (H1 & H2 & H3). apply occurs_in_rendered; assumption.
  - destruct tok_question_shape as (H1 & H2 & H3). apply occurs_in_rendered; assumption.
Qed.

(** ** The model-selection cell *)

Ltac run_cell :=
  cbv [run_init cell_settings cell_init_model mbind cell_bind cbind store load
       import_name lift cret instantiate print globals stdout fresh_kernel fst snd];
  repeat (first [ rewrite lookup_insert_eq
                | rewrite lookup_insert_ne by done
                | rewrite lookup_empty ];
          cbv beta iota zeta delta [as_str as_api_key globals stdout fst snd]).

(** C10: for every MODEL string that starts with ["gpt"], running the
    settings cell and then the model-selection cell on a fresh kernel does
    not complete; when the two constructors of the gpt branch return, the
    cell raises [NameError] for [response] at the final [print], with
    nothing printed and [response] still unbound, because only the other
    branch assigns it.  On the non-gpt path, with constructors and the test
    generation returning, the cell completes and prints the reply. *)
Theorem init_cell_gpt_raises_NameError `{Externals} (MODEL : str) :
  startswith MODEL (lit "gpt") = true ->
  is_ok (fst (run_init MODEL)) = false
  /\ (construct (ChatOpenAI (getenv "OPENAI_API_KEY") MODEL) = Ok tt ->
      construct OpenAIEmbeddings = Ok tt ->
      fst (run_init MODEL) = Raise (NameError "response")
      /\ stdout (snd (run_init MODEL)) = []
      /\ globals (snd (run_init MODEL)) !! "response" = None)
  /\ (forall other reply : str,
      startswith other (lit "gpt") = false ->
      construct (Ollama other) = Ok tt ->
      construct OllamaEmbeddings = Ok tt ->
      generate (Ollama other) (lit "Where is the capital city of Afghanistan?") = Ok reply ->
      fst (run_init other) = Ok tt /\ stdout (snd (run_init other)) = [reply]).
Proof.
  intros Hgpt. split; [|split].
  - run_cell. rewrite Hgpt.
    destruct (getenv "OPENAI_API_KEY") as [key|]; run_cell.
    all: destruct (construct (ChatOpenAI _ MODEL)) as [[]|e1]; run_cell; try reflexivity.
    all: destruct (construct OpenAIEmbeddings) as [[]|e2]; run_cell; reflexivity.
  - intros Hc1 Hc2. run_cell. rewrite Hgpt. revert Hc1.
    destruct (getenv "OPENAI_API_KEY") as [key|]; intros Hc1; run_cell.
    all: rewrite Hc1; run_cell; rewrite Hc2; run_cell; auto.
  - intros other reply Hno Hc1 Hc2 Hg. run_cell. rewrite Hno. run_cell.
    rewrite Hc1. run_cell. rewrite Hc2. run_cell.
    cbv [model_invoke]. rewrite Hg. cbv [rbind]. run_cell. auto.
Qed.

Lemma init_cell_gpt_raises_NameError_witness :
  startswith (lit "gpt-3.5-turbo") (lit "gpt") = true
  /\ fst (@run_init echo_externals (lit "gpt-3.5-turbo")) = Raise (NameError "response")
  /\ fst (@run_init echo_externals notebook_MODEL) = Ok tt.
Proof.
  destruct (@init_cell_gpt_raises_NameError echo_externals (lit "gpt-3.5-turbo") eq_refl)
    as (_ & Hgpt & Hother).
  split; [reflexivity|]. split.
  - apply Hgpt; reflexivity.
  - apply (Hother notebook_MODEL (lit "Where is the capital city of Afghanistan?"));
      reflexivity.
Defined.

(** ** The retrieval chain *)

Section ChainFacts.
Context `{Externals}.

Lemma question_input_lookup (q : str) :
  itemgetter "question" (question_input q) = Ok (Scalar (VStr q)).
Proof.
  unfold itemgetter, question_input. rewrite lookup_singleton_eq. reflexivity.
Qed.

(** The dictionary step puts the retriever's pages, as they are, under
    ["context"]. *)
Lemma context_and_question_eq (retriever : Retriever) (q : str) :
  context_and_question retriever (question_input q) =
  rbind (retriever q) (fun docs =>
    Ok (Dict (<["context" := VDocs docs]> (<["question" := VStr q]> ∅)))).
Proof.
  unfold context_and_question, parallel_step.
  cbn [parallel_invoke sequence_invoke].
  rewrite question_input_lookup. cbn [rbind retriever_step].
  destruct (retriever q) as [docs | e]; reflexivity.
Qed.

Lemma chain_prompt_eq (retriever : Retriever) (q : str) :
  chain_prompt retriever notebook_prompt q =
  rbind (retriever q) (fun docs =>
    Ok (Scalar (VPromptValue
      (template_head ++ py_str (VDocs docs) ++ template_mid ++ q ++ template_tail)))).
Proof.
  unfold chain_prompt. cbn [sequence_invoke].
  rewrite context_and_question_eq.
  destruct (retriever q) as [docs | e]; [|reflexivity].
  cbn [rbind prompt_step]. unfold prompt_format. cbn [pt_template notebook_prompt].
  rewrite (prompt_format_template _ (VDocs docs) (VStr q)).
  - reflexivity.
  - apply lookup_insert_eq.
  - rewrite lookup_insert_ne by done. apply lookup_insert_eq.
Qed.

(** The chain is its first two steps followed by the model and the
    parser. *)
Lemma chain_invoke_split (retriever : Retriever) (prompt : PromptTemplate)
      (model : Value) (q : str) :
  chain_invoke retriever prompt model q =
  rbind (chain_prompt retriever prompt q)
        (fun p => rbind (model_step model p) StrOutputParser).
Proof.
  unfold chain_invoke, chain_prompt, chain. cbn [sequence_invoke].
  destruct (context_and_question retriever (question_input q)) as [d | e]; [|reflexivity].
  cbn [rbind]. destruct (prompt_step prompt d) as [p | e]; [|reflexivity].
  cbn [rbind]. destruct (model_step model p) as [r | e]; [|reflexivity].
  cbn [rbind]. destruct (StrOutputParser r); reflexivity.
Qed.

(** Running a step over a list succeeds exactly when it succeeds on every
    element, with the outputs in input order. *)
Lemma each_spec {A B} (f : A -> result B) (xs : list A) (ys : list B) :
  each f xs = Ok ys <-> Forall2 (fun x y => f x = Ok y) xs ys.
Proof.
  revert ys. induction xs as [|x xs IH]; intros ys; cbn [each].
  - split.
    + intros [= <-]. constructor.
    + intros Hf. inversion Hf. reflexivity.
  - split.
    + destruct (f x) as [y | e] eqn:Ex; [|discriminate]. cbn [rbind].
      destruct (each f xs) as [ys' | e] eqn:Es; [|discriminate]. cbn [rbind].
      intros [= <-]. constructor; [exact Ex | apply IH; reflexivity].
    + intros Hf. inversion Hf as [|x' y xs' ys' Hx Hrest]; subst.
      rewrite Hx. cbn [rbind]. apply IH in Hrest. rewrite Hrest. reflexivity.
Qed.

Lemma each_fails {A B} (f : A -> result B) (xs : list A) :
  Exists (fun x => is_ok (f x) = false) xs -> is_ok (each f xs) = false.
Proof.
  induction 1 as [x xs Hx | x xs _ IH]; cbn [each].
  - destruct (f x); [discriminate | reflexivity].
  - destruct (f x); [|reflexivity]. cbn [rbind].
    destruct (each f xs); [discriminate | reflexivity].
Qed.

(** A batch over a sequence of steps returns exactly when every input's
    own run through the steps returns, and then it holds those results in
    input order. *)
Lemma sequence_batch_spec (steps : list Runnable) (xs ys : list Data) :
  sequence_batch steps xs = Ok ys
  <-> Forall2 (fun x y => sequence_invoke steps x = Ok y) xs ys.
Proof.
  revert xs ys. induction steps as [|step rest IH]; intros xs ys; cbn [sequence_batch].
  - split.
    + intros [= <-]. induction xs; constructor; [reflexivity | assumption].
    + intros Hf. f_equal. induction Hf as [|x y xs ys Hxy _ IHf]; [reflexivity|].
      cbn [sequence_invoke] in Hxy. congruence.
  - split.
    + destruct (each step xs) as [zs | e] eqn:Ez; [|discriminate]. cbn [rbind].
      intros Hb. apply IH in Hb. apply each_spec in Ez.
      clear IH. revert ys Hb. induction Ez as [|x z xs zs Hxz _ IHz]; intros ys Hb.
      * inversion Hb. constructor.
      * inversion Hb as [|z' y zs' ys' Hzy Hrest]; subst. constructor.
        -- cbn [sequence_invoke]. rewrite Hxz. exact Hzy.
        -- apply IHz. exact Hrest.
    + intros Hf.
      assert (Hz : exists zs, Forall2 (fun x z => step x = Ok z) xs zs
                 /\ Forall2 (fun z y => sequence_invoke rest z = Ok y) zs ys).
      { clear IH. induction Hf as [|x y xs ys Hxy _ (zs & Hz1 & Hz2)].
        - exists []. split; constructor.
        - cbn [sequence_invoke] in Hxy.
          destruct (step x) as [z | e] eqn:Ez; [|discriminate].
          exists (z :: zs). split; constructor; assumption. }
      destruct Hz as (zs & Hz1 & Hz2).
      apply each_spec in Hz1. rewrite Hz1. cbn [rbind]. apply IH. exact Hz2.
Qed.

Lemma sequence_batch_fails (steps : list Runnable) (xs : list Data) :
  Exists (fun x => is_ok (sequence_invoke steps x) = false) xs ->
  is_ok (sequence_batch steps xs) = false.
Proof.
  intros Hex. destruct (sequence_batch steps xs) as [ys | e] eqn:Eb; [|reflexivity].
  exfalso. apply sequence_batch_spec in Eb.
  induction Eb as [|x y xs ys Hxy _ IH].
  - inversion Hex.
  - inversion Hex as [? ? Hx | ? ? Hrest]; subst.
    + rewrite Hxy in Hx. discriminate.
    + apply IH. exact Hrest.
Qed.
End ChainFacts.

(** C2, as stated, fails: "the context passed to the prompt builder equals
    the join of the retrieved chunks' text fields with a separator; when the
    retrieval result is empty the context is the empty string".  For the
    question ["tell me about Bamiyan"] and a retriever that finds nothing,
    the chain passes the empty list itself and the prompt reads
    [Context: []], not an empty context. *)
Lemma chain_context_of_empty_retrieval :
  @context_and_question empty_retriever (question_input (lit "tell me about Bamiyan"))
  = Ok (Dict (<["context" := VDocs []]> (<["question" := VStr (lit "tell me about Bamiyan")]> ∅)))
  /\ @chain_prompt echo_externals empty_retriever notebook_prompt (lit "tell me about Bamiyan")
     = Ok (Scalar (VPromptValue
             (template_head ++ lit "[]" ++ template_mid
              ++ lit "tell me about Bamiyan" ++ template_tail)))
  /\ ~ (forall (retriever : Retriever) (q : str) (docs : list Document),
          retriever q = Ok docs ->
          exists sep : str,
            @chain_prompt echo_externals retriever notebook_prompt q
            = Ok (Scalar (VPromptValue
                    (template_head ++ join sep (map page_content docs)
                     ++ template_mid ++ q ++ template_tail)))).
Proof.
  split; [rewrite context_and_question_eq; reflexivity|].
  split; [rewrite chain_prompt_eq; reflexivity|].
  intros Hall.
  destruct (Hall empty_retriever (lit "tell me about Bamiyan") [] eq_refl) as [sep Hp].
  rewrite chain_prompt_eq in Hp. cbn [empty_retriever rbind map join] in Hp.
  apply (f_equal (fun r => match r with
                           | Ok (Scalar (VPromptValue t)) => t
                           | _ => []
                           end)) in Hp.
  cbv beta iota in Hp. apply app_inv_head in Hp. discriminate Hp.
Qed.

(** C2, amended: for every question processed by the pipeline orchestrator
    whose retrieval returns, the context passed to the prompt builder is the
    retrieved list of chunks itself, and the prompt shows it as Python writes
    a list: an opening bracket, the chunks' [repr]s joined by a comma and a
    space, a closing bracket.  The same holds when the retrieval result is
    empty (the prompt then reads [[]]): the orchestrator performs no
    special-casing of empty retrieval. *)
Theorem chain_context_is_retrieved_list `{Externals}
        (retriever : Retriever) (model : Value) (q : str) (docs : list Document) :
  retriever q = Ok docs ->
  context_and_question retriever (question_input q)
  = Ok (Dict (<["context" := VDocs docs]> (<["question" := VStr q]> ∅)))
  /\ chain_prompt retriever notebook_prompt q
     = Ok (Scalar (VPromptValue
             (template_head
              ++ (lit "[" ++ join (lit ", ") (map repr_Document docs) ++ lit "]")
              ++ template_mid ++ q ++ template_tail)))
  /\ chain_invoke retriever notebook_prompt model q
     = rbind (model_step model
                (Scalar (VPromptValue
                   (template_head
                    ++ (lit "[" ++ join (lit ", ") (map repr_Document docs) ++ lit "]")
                    ++ template_mid ++ q ++ template_tail))))
             StrOutputParser.
Proof.
  intros Hr. split; [|split].
  - rewrite context_and_question_eq, Hr. reflexivity.
  - rewrite chain_prompt_eq, Hr. reflexivity.
  - rewrite chain_invoke_split, chain_prompt_eq, Hr. reflexivity.
Qed.

Lemma chain_context_is_retrieved_list_witness :
  @chain_prompt echo_externals empty_retriever notebook_prompt
                (lit "What are the languages of Afghanistan?")
  = Ok (Scalar (VPromptValue
          (template_head ++ lit "[]" ++ template_mid
           ++ lit "What are the languages of Afghanistan?" ++ template_tail))).
Proof.
  exact (proj1 (proj2 (@chain_context_is_retrieved_list echo_externals empty_retriever llama
                         (lit "What are the languages of Afghanistan?") [] eq_refl))).
Defined.

(** C3, as stated, fails: "batch([q1, q2]) yields a sequence element-wise
    equal to the single-question pipeline on q1 and on q2, ... one question's
    failure not affecting the other positions' results".  With a retriever
    that fails on the second question only, the first question alone is
    answered, yet the batch of both raises and yields no sequence at all. *)
Lemma chain_batch_aborts_on_one_failure :
  is_ok (@chain_invoke echo_externals picky_retriever notebook_prompt llama
           (lit "How much is the population of Afghanistan")) = true
  /\ @chain_invoke echo_externals picky_retriever notebook_prompt llama (lit "?")
     = Raise (ExternalError "retriever")
  /\ @chain_batch echo_externals picky_retriever notebook_prompt llama
       [lit "How much is the population of Afghanistan"; lit "?"]
     = Raise (ExternalError "retriever").
Proof.
  split; [|split].
  - rewrite chain_invoke_split, chain_prompt_eq. reflexivity.
  - rewrite chain_invoke_split, chain_prompt_eq. reflexivity.
  - unfold chain_batch, chain. cbn [sequence_batch map each].
    rewrite !context_and_question_eq. reflexivity.
Qed.

(** C3, amended: for every pair of questions q1, q2 and deterministic
    components, batch([q1, q2]) returns a sequence exactly when the
    single-question pipeline returns on both q1 and q2, and the sequence is
    then those two answers in input order; when the pipeline raises on
    either question, the batch call raises. *)
Theorem chain_batch_pair `{Externals}
        (retriever : Retriever) (prompt : PromptTemplate) (model : Value) (q1 q2 : str) :
  (forall outs : list Data,
     chain_batch retriever prompt model [q1; q2] = Ok outs
     <-> exists a1 a2,
           outs = [a1; a2]
           /\ chain_invoke retriever prompt model q1 = Ok a1
           /\ chain_invoke retriever prompt model q2 = Ok a2)
  /\ (is_ok (chain_invoke retriever prompt model q1) = false
      \/ is_ok (chain_invoke retriever prompt model q2) = false ->
      is_ok (chain_batch retriever prompt model [q1; q2]) = false).
Proof.
  unfold chain_batch, chain_invoke. cbn [map]. split.
  - intros outs. rewrite sequence_batch_spec. split.
    + intros Hf. inversion Hf as [|x1 a1 xs1 ys1 H1 Hf1]; subst.
      inversion Hf1 as [|x2 a2 xs2 ys2 H2 Hf2]; subst. inversion Hf2; subst.
      exists a1, a2. auto.
    + intros (a1 & a2 & -> & H1 & H2). repeat constructor; assumption.
  - intros Hfail. apply sequence_batch_fails.
    destruct Hfail as [H1 | H2].
    + left. exact H1.
    + right. left. exact H2.
Qed.

(* ===================================================================== *)
(** ** The vector index *)
(* ===================================================================== *)

Section SelectionFacts.
Context `{M : Metric}.
Context {A : Type} (sc : A -> Score).

Lemma place_perm (x : A) (kept : list A) : Permutation (place sc x kept) (x :: kept).
Proof.
  induction kept as [|y rest IH]; cbn [place]; [reflexivity|].
  destruct (score_le (sc x) (sc y)); [|reflexivity].
  rewrite IH. apply perm_swap.
Qed.

(** Dropping what falls beyond the bound before placing a candidate loses
    nothing of the first [k]. *)
Lemma place_firstn (x : A) (k : nat) (kept : list A) :
  firstn k (place sc x (firstn k kept)) = firstn k (place sc x kept).
Proof.
  revert kept. induction k as [|k IH]; intros kept; [reflexivity|].
  destruct kept as [|y rest]; [reflexivity|].
  cbn [firstn place]. destruct (score_le (sc x) (sc y)).
  - cbn [firstn]. rewrite IH. reflexivity.
  - cbn [firstn]. f_equal.
    change (y :: firstn k rest) with (firstn (S k) (y :: rest)).
    rewrite firstn_firstn. f_equal. lia.
Qed.

Lemma select_top_fold (k : nat) (candidates acc : list A) :
  fold_left (fun kept x => firstn k (place sc x kept)) candidates (firstn k acc)
  = firstn k (fold_left (fun kept x => place sc x kept) candidates acc).
Proof.
  revert acc. induction candidates as [|x l IH]; intros acc; cbn [fold_left].
  - reflexivity.
  - rewrite place_firstn. apply IH.
Qed.

(** The bounded scan keeps the first [k] of the unbounded one. *)
Lemma select_top_rank_all (k : nat) (candidates : list A) :
  select_top sc k candidates = firstn k (rank_all sc candidates).
Proof.
  unfold select_top, rank_all. rewrite <- select_top_fold.
  destruct k; reflexivity.
Qed.

Lemma rank_fold_perm (candidates acc : list A) :
  Permutation (fold_left (fun kept x => place sc x kept) candidates acc)
              (acc ++ candidates).
Proof.
  revert acc. induction candidates as [|x l IH]; intros acc; cbn [fold_left].
  - rewrite app_nil_r. reflexivity.
  - rewrite IH, place_perm. apply Permutation_middle.
Qed.

Lemma rank_all_perm (candidates : list A) :
  Permutation (rank_all sc candidates) candidates.
Proof. unfold rank_all. apply (rank_fold_perm candidates []). Qed.

Lemma select_top_length (k : nat) (candidates : list A) :
  length (select_top sc k candidates) <= k.
Proof. rewrite select_top_rank_all. apply firstn_le_length. Qed.

Lemma select_top_all (k : nat) (candidates : list A) :
  length candidates <= k -> select_top sc k candidates = rank_all sc candidates.
Proof.
  intros Hk. rewrite select_top_rank_all. apply firstn_all2.
  rewrite (Permutation_length (rank_all_perm candidates)). exact Hk.
Qed.
End SelectionFacts.

Section RankingFacts.
Context `{M : Metric} {MO : MetricOrder M}.
Context {A : Type} (sc : A -> Score) (pos : A -> nat).

Lemma score_le_refl (a : Score) : score_le a a = true.
Proof. destruct (score_le_total a a); assumption. Qed.

Lemma place_ahead (x : A) (kept : list A) :
  StronglySorted (ahead sc pos) kept ->
  Forall (fun y => pos y < pos x) kept ->
  StronglySorted (ahead sc pos) (place sc x kept).
Proof.
  induction 1 as [|y rest Hrest IH Hy]; intros Hpos; cbn [place].
  - repeat constructor.
  - inversion Hpos as [|? ? Hyx Hpos']; subst.
    destruct (score_le (sc x) (sc y)) eqn:Exy.
    + constructor; [apply IH; exact Hpos'|].
      rewrite (place_perm sc x rest). constructor; [|exact Hy].
      split; [exact Exy | intros _; exact Hyx].
    + assert (Hyx' : score_le (sc y) (sc x) = true).
      { destruct (score_le_total (sc x) (sc y)); congruence. }
      constructor; [constructor; assumption|].
      constructor.
      * split; [exact Hyx' | congruence].
      * eapply Forall_impl; [exact Hy|]. intros z [Hzy Htie]. split.
        -- eapply score_le_trans; eassumption.
        -- intros Hxz. rewrite (score_le_trans _ _ _ Hxz Hzy) in Exy. discriminate.
Qed.

Lemma rank_fold_ahead (candidates acc : list A) :
  StronglySorted (ahead sc pos) acc ->
  StronglySorted (fun a b => pos a < pos b) candidates ->
  (forall a x, In a acc -> In x candidates -> pos a < pos x) ->
  StronglySorted (ahead sc pos) (fold_left (fun kept x => place sc x kept) candidates acc).
Proof.
  revert acc. induction candidates as [|x l IH]; intros acc Hacc Hl Hlt; cbn [fold_left].
  - exact Hacc.
  - inversion Hl as [|? ? Hl' Hx]; subst. apply IH.
    + apply place_ahead; [exact Hacc|].
      apply List.Forall_forall. intros a Ha. apply Hlt; [exact Ha | left; reflexivity].
    + exact Hl'.
    + intros a y Ha Hy.
      apply (Permutation_in _ (place_perm sc x acc)) in Ha. destruct Ha as [<- | Ha].
      * rewrite List.Forall_forall in Hx. apply Hx. exact Hy.
      * apply Hlt; [exact Ha | right; exact Hy].
Qed.

Lemma rank_all_ahead (candidates : list A) :
  StronglySorted (fun a b => pos a < pos b) candidates ->
  StronglySorted (ahead sc pos) (rank_all sc candidates).
Proof.
  intros Hl. apply rank_fold_ahead; [constructor | exact Hl | intros a x []].
Qed.
End RankingFacts.

Section TaggingFacts.
Context `{M : Metric}.

Lemma place_map {A B} (f : A -> B) (sc : B -> Score) (x : A) (kept : list A) :
  map f (place (fun a => sc (f a)) x kept) = place sc (f x) (map f kept).
Proof.
  induction kept as [|y rest IH]; cbn [place map]; [reflexivity|].
  destruct (score_le (sc (f x)) (sc (f y))); cbn [map]; congruence.
Qed.

Lemma select_top_map {A B} (f : A -> B) (sc : B -> Score) (k : nat) (l : list A) :
  map f (select_top (fun a => sc (f a)) k l) = select_top sc k (map f l).
Proof.
  unfold select_top. change (@nil B) with (map f []). generalize (@nil A) as acc.
  induction l as [|x l IH]; intros acc; cbn [fold_left map]; [reflexivity|].
  rewrite IH. f_equal. rewrite <- firstn_map, place_map. reflexivity.
Qed.

Lemma tagged_positions {B} (l : list B) (s : nat) :
  StronglySorted (fun a b : nat * B => fst a < fst b) (combine (seq s (length l)) l).
Proof.
  revert s. induction l as [|x l IH]; intros s; cbn [length seq combine].
  - constructor.
  - constructor; [apply IH|]. apply List.Forall_forall. intros [p e] Hin.
    apply in_combine_l in Hin. apply in_seq in Hin. cbn [fst]. lia.
Qed.

Lemma tagged_snd {B} (l : list B) (s : nat) :
  map snd (combine (seq s (length l)) l) = l.
Proof.
  revert s. induction l as [|x l IH]; intros s; cbn [length seq combine map]; [reflexivity|].
  rewrite IH. reflexivity.
Qed.

Lemma tagged_fst {B} (l : list B) (s : nat) :
  map fst (combine (seq s (length l)) l) = seq s (length l).
Proof.
  revert s. induction l as [|x l IH]; intros s; cbn [length seq combine map]; [reflexivity|].
  rewrite IH. reflexivity.
Qed.

Lemma tagged_In {B} (l : list B) (s p : nat) (e : B) :
  In (p, e) (combine (seq s (length l)) l) <-> s <= p /\ l !! (p - s) = Some e.
Proof.
  revert s. induction l as [|x l IH]; intros s; cbn [length seq combine In].
  - split; [intros [] | intros [_ Hl]; discriminate Hl].
  - rewrite IH. split.
    + intros [[= <- <-] | [Hle Hl]].
      * split; [lia|]. replace (s - s) with 0 by lia. reflexivity.
      * split; [lia|]. replace (p - s) with (S (p - S s)) by lia. exact Hl.
    + intros [Hle Hl]. destruct (Nat.eq_dec p s) as [-> | Hne].
      * left. replace (s - s) with 0 in Hl by lia. cbn in Hl. congruence.
      * right. split; [lia|].
        replace (p - s) with (S (p - S s)) in Hl by lia. exact Hl.
Qed.

Lemma StronglySorted_firstn {A} (R : A -> A -> Prop) (k : nat) (l : list A) :
  StronglySorted R l -> StronglySorted R (firstn k l).
Proof.
  intros Hs. revert k. induction Hs as [|x l Hs IH Hx]; intros k.
  - rewrite firstn_nil. constructor.
  - destruct k as [|k]; cbn [firstn]; constructor; [apply IH|].
    apply List.Forall_forall. intros y Hy.
    rewrite List.Forall_forall in Hx. apply Hx.
    rewrite <- (firstn_skipn k l). apply in_or_app. left. exact Hy.
Qed.

Lemma StronglySorted_app_r {A} (R : A -> A -> Prop) (l1 l2 : list A) :
  StronglySorted R (l1 ++ l2) -> StronglySorted R l2.
Proof.
  induction l1 as [|x l1 IH]; cbn [app]; [auto|].
  intros Hs. inversion Hs; subst. auto.
Qed.

Lemma StronglySorted_map {A B} (R : A -> A -> Prop) (R' : B -> B -> Prop)
      (f : A -> B) (l : list A) :
  (forall a b, R a b -> R' (f a) (f b)) ->
  StronglySorted R l -> StronglySorted R' (map f l).
Proof.
  intros HR. induction 1 as [|x l Hs IH Hx]; cbn [map]; constructor; [exact IH|].
  apply List.Forall_forall. intros y Hy. apply in_map_iff in Hy as (a & <- & Ha).
  rewrite List.Forall_forall in Hx. apply HR, Hx, Ha.
Qed.

Lemma scored_length (q : EmbeddingVector) (idx : VectorIndex) :
  length (scored q idx) = length (entries idx).
Proof. unfold scored. apply length_map. Qed.

(** Forgetting the position tags of the tagged scan gives the result of
    [search]. *)
Lemma search_ranking (q : EmbeddingVector) (k : nat) (idx : VectorIndex) :
  valid_query q idx -> search q k idx = Success (map snd (ranking q k idx)).
Proof.
  intros Hq. unfold search, ranking.
  rewrite (select_top_map snd snd), <- (scored_length q idx), tagged_snd.
  destruct (dimension idx) as [D|] eqn:Ed.
  - rewrite (Hq D Ed), Nat.eqb_refl. reflexivity.
  - unfold dimension in Ed. unfold scored.
    destruct (entries idx); [reflexivity | discriminate].
Qed.

Lemma ranking_In (q : EmbeddingVector) (k : nat) (idx : VectorIndex)
      (p : nat) (e : Chunk * Score) :
  In (p, e) (ranking q k idx) -> scored q idx !! p = Some e.
Proof.
  unfold ranking. rewrite select_top_rank_all. intros Hin.
  assert (Hin' : In (p, e) (combine (seq 0 (length (entries idx))) (scored q idx))).
  { eapply Permutation_in; [apply rank_all_perm|].
    rewrite <- (firstn_skipn k (rank_all _ _)). apply in_or_app. left. exact Hin. }
  rewrite <- (scored_length q idx) in Hin'. apply tagged_In in Hin' as [_ Hl].
  rewrite Nat.sub_0_r in Hl. exact Hl.
Qed.
End TaggingFacts.

Global Instance inner_product_order : MetricOrder inner_product_metric.
Proof.
  split; cbn [Score score_le inner_product_metric].
  - intros a b. rewrite !Z.leb_le. lia.
  - intros a b c. rewrite !Z.leb_le. lia.
Qed.

Section IndexFacts.
Context `{M : Metric} {MO : MetricOrder M}.

Lemma ranking_ahead (q : EmbeddingVector) (k : nat) (idx : VectorIndex) :
  StronglySorted (ahead (fun p : nat * (Chunk * Score) => snd (snd p)) fst)
                 (ranking q k idx).
Proof.
  unfold ranking. rewrite select_top_rank_all. apply StronglySorted_firstn.
  apply rank_all_ahead. rewrite <- (scored_length q idx). apply tagged_positions.
Qed.

Lemma uniform_dimension (D : nat) (idx : VectorIndex) :
  entries idx <> [] -> uniform D idx -> dimension idx = Some D.
Proof.
  unfold uniform, dimension. destruct (entries idx) as [|e rest]; [congruence|].
  intros _ Hu. inversion Hu; subst. reflexivity.
Qed.

(** C1: for every non-empty index whose entries all have dimension D and
    every query vector of dimension D, [search] returns a retrieval result
    of at most [k] pairs, each the chunk and score of a stored entry, in
    which no pair scores higher than a pair before it (highest first). *)
Theorem search_sorted_and_bounded
        (idx : VectorIndex) (q : EmbeddingVector) (k D : nat) :
  entries idx <> [] ->
  uniform D idx ->
  length q = D ->
  exists res : RetrievalResult,
    search q k idx = Success res
    /\ length res <= k
    /\ StronglySorted (fun a b => score_le (snd b) (snd a) = true) res
    /\ Forall (fun p => In p (scored q idx)) res.
Proof.
  intros Hne Hu Hq.
  assert (Hv : valid_query q idx).
  { intros D' HD'. rewrite (uniform_dimension D idx Hne Hu) in HD'. congruence. }
  exists (map snd (ranking q k idx)). split; [apply search_ranking, Hv|].
  split; [|split].
  - rewrite length_map. apply select_top_length.
  - eapply StronglySorted_map; [|apply ranking_ahead].
    intros a b [Hba _]. exact Hba.
  - apply List.Forall_forall. intros p Hp.
    apply in_map_iff in Hp as ([pos e] & <- & Hin). cbn [snd].
    apply ranking_In in Hin. eapply list_elem_of_In, list_elem_of_lookup_2, Hin.
Qed.

(** C8: for every index holding n entries and every valid query vector,
    [search] with k > n returns without error, and the result holds every
    stored entry exactly once: its ranked positions are a rearrangement of
    0 .. n-1 and its pairs a rearrangement of the entries' (chunk, score)
    pairs. *)
Theorem search_returns_all_when_k_exceeds
        (idx : VectorIndex) (q : EmbeddingVector) (k : nat) :
  valid_query q idx ->
  length (entries idx) < k ->
  search q k idx = Success (map snd (ranking q k idx))
  /\ Permutation (map fst (ranking q k idx)) (seq 0 (length (entries idx)))
  /\ Permutation (map snd (ranking q k idx)) (scored q idx)
  /\ NoDup (map fst (ranking q k idx)).
Proof.
  intros Hv Hk. split; [apply search_ranking, Hv|].
  assert (Hp : Permutation (ranking q k idx)
                 (combine (seq 0 (length (scored q idx))) (scored q idx))).
  { unfold ranking. rewrite select_top_all.
    - rewrite (scored_length q idx). apply rank_all_perm.
    - rewrite length_combine, length_seq, scored_length. lia. }
  assert (Hfst : Permutation (map fst (ranking q k idx)) (seq 0 (length (entries idx)))).
  { rewrite Hp, tagged_fst, scored_length. reflexivity. }
  split; [exact Hfst|]. split.
  - rewrite Hp, tagged_snd. reflexivity.
  - rewrite Hfst. apply NoDup_seq.
Qed.

(** C9: for every pair of stored entries whose scores against the query
    tie, the one inserted earlier (position i) is ranked ahead of the one
    inserted later (position j): wherever the later one stands in the
    result, the earlier one stands before it. *)
Theorem search_breaks_ties_by_insertion_order
        (idx : VectorIndex) (q : EmbeddingVector) (k i j : nat)
        (ei ej : Chunk * Score) :
  valid_query q idx ->
  scored q idx !! i = Some ei ->
  scored q idx !! j = Some ej ->
  i < j ->
  tie (snd ei) (snd ej) = true ->
  search q k idx = Success (map snd (ranking q k idx))
  /\ forall before after,
       ranking q k idx = before ++ (j, ej) :: after -> In (i, ei) before.
Proof.
  intros Hv Hi Hj Hij Htie. split; [apply search_ranking, Hv|].
  apply andb_true_iff in Htie as [Hle_ij Hle_ji].
  intros before after Hsplit.
  pose (tagged := combine (seq 0 (length (entries idx))) (scored q idx)).
  pose (sc := fun p : nat * (Chunk * Score) => snd (snd p)).
  unfold ranking in Hsplit. rewrite select_top_rank_all in Hsplit.
  change (firstn k (rank_all sc tagged) = before ++ (j, ej) :: after) in Hsplit.
  assert (Hfull : exists rest, rank_all sc tagged = before ++ (j, ej) :: after ++ rest).
  { exists (skipn k (rank_all sc tagged)).
    rewrite <- (firstn_skipn k (rank_all sc tagged)) at 1.
    rewrite Hsplit, <- app_assoc. reflexivity. }
  destruct Hfull as [rest Hfull].
  assert (Hsorted : StronglySorted (ahead sc fst) (rank_all sc tagged)).
  { apply rank_all_ahead. unfold tagged. rewrite <- (scored_length q idx).
    apply tagged_positions. }
  assert (Hin : In (i, ei) (rank_all sc tagged)).
  { eapply Permutation_in; [symmetry; apply rank_all_perm|].
    unfold tagged. rewrite <- (scored_length q idx).
    apply tagged_In. split; [lia|]. rewrite Nat.sub_0_r. exact Hi. }
  rewrite Hfull in Hin, Hsorted.
  apply in_app_or in Hin as [Hin | [Heq | Hin]].
  - exact Hin.
  - injection Heq as Heq _. lia.
  - exfalso. apply StronglySorted_app_r in Hsorted.
    inversion Hsorted as [|? ? _ Hall]; subst.
    rewrite List.Forall_forall in Hall. destruct (Hall _ Hin) as [_ Hpos].
    cbn [fst snd sc] in Hpos. specialize (Hpos Hle_ji). lia.
Qed.
End IndexFacts.

(** Modelled from the spec: the normalisation of the missing store's
    metric, "self-similarity is maximal": against a query no vector scores
    higher than the query itself. *)
Class MetricSelfMax (M : Metric) : Prop := {
  self_similarity_max : forall q u : list Coord,
    score_le (similarity q u) (similarity q q) = true
}.

Section AddThenSearch.
Context `{M : Metric} {MO : MetricOrder M} {MS : MetricSelfMax M}.

Lemma add_success (c : Chunk) (v : EmbeddingVector) (idx idx' : VectorIndex) :
  add c v idx = (Success tt, idx') ->
  entries idx' = entries idx ++ [mkEntry c v] /\ valid_query v idx'.
Proof.
  unfold add, valid_query, dimension.
  destruct (entries idx) as [|e rest] eqn:Ee.
  - intros [= <-]. cbn [entries app]. split; [reflexivity|].
    intros D [= <-]. reflexivity.
  - destruct (Nat.eqb (length v) (length (vector e))) eqn:Eq; [|discriminate].
    intros [= <-]. cbn [entries app]. split; [reflexivity|].
    intros D [= <-]. apply Nat.eqb_eq. exact Eq.
Qed.

Lemma rank_all_snoc {A} (sc : A -> Score) (l : list A) (x : A) :
  rank_all sc (l ++ [x]) = place sc x (rank_all sc l).
Proof. unfold rank_all. rewrite fold_left_app. reflexivity. Qed.

Lemma place_front {A} (sc : A -> Score) (x : A) (kept : list A) :
  Forall (fun y => score_le (sc x) (sc y) = false) kept ->
  place sc x kept = x :: kept.
Proof.
  destruct 1 as [|y rest Hy _]; cbn [place]; [reflexivity|].
  rewrite Hy. reflexivity.
Qed.

(** C5, amended: for every index with established dimension D and every
    vector [v] of length D, [add(chunk, v)] succeeds, and [search(v, k = 1)]
    on the result returns exactly one pair, with similarity score equal to
    the maximum attainable value of the metric (it ties with the
    self-similarity of [v], which no vector exceeds, and equals it where
    tied scores are equal); the pair is that of the earliest stored entry
    reaching this score: the added entry itself when every entry stored
    before scores strictly below it, an earlier entry otherwise. *)
Theorem add_then_search_top1
        (c : Chunk) (v : EmbeddingVector) (idx : VectorIndex) (D : nat) :
  dimension idx = Some D ->
  length v = D ->
  add c v idx = (Success tt, mkIndex (entries idx ++ [mkEntry c v]))
  /\ exists (i : nat) (best : Chunk * Score),
       search v 1 (mkIndex (entries idx ++ [mkEntry c v])) = Success [best]
       /\ scored v (mkIndex (entries idx ++ [mkEntry c v])) !! i = Some best
       /\ tie (snd best) (similarity v v) = true
       /\ (forall u : EmbeddingVector, score_le (similarity v u) (snd best) = true)
       /\ ((forall a b : Score, tie a b = true -> a = b) ->
           snd best = similarity v v)
       /\ (forall j p, j < i ->
             scored v (mkIndex (entries idx ++ [mkEntry c v])) !! j = Some p ->
             score_le (snd best) (snd p) = false)
       /\ (Forall (fun p => score_le (similarity v v) (snd p) = false) (scored v idx) ->
           best = (c, similarity v v)).
Proof.
  intros Hdim Hlen.
  assert (Hadd : add c v idx = (Success tt, mkIndex (entries idx ++ [mkEntry c v]))).
  { unfold add. rewrite Hdim, Hlen, Nat.eqb_refl. reflexivity. }
  split; [exact Hadd|].
  set (idx' := mkIndex (entries idx ++ [mkEntry c v])) in *.
  destruct (add_success _ _ _ _ Hadd) as [Hent Hv].
  assert (Hsc : scored v idx' = scored v idx ++ [(c, similarity v v)]).
  { unfold scored. rewrite Hent, map_app. reflexivity. }
  pose (tagged := combine (seq 0 (length (entries idx'))) (scored v idx')).
  pose (sc := fun p : nat * (Chunk * Score) => snd (snd p)).
  assert (Hsorted : StronglySorted (ahead sc fst) (rank_all sc tagged)).
  { apply rank_all_ahead. unfold tagged. rewrite <- (scored_length v idx').
    apply tagged_positions. }
  assert (Hperm : Permutation (rank_all sc tagged) tagged) by apply rank_all_perm.
  assert (Htag : forall p e, In (p, e) tagged <-> scored v idx' !! p = Some e).
  { intros p e. unfold tagged. rewrite <- (scored_length v idx'), tagged_In, Nat.sub_0_r.
    split; [intros [_ Hl]; exact Hl | intros Hl; split; [lia | exact Hl]]. }
  assert (Hrank : ranking v 1 idx' = firstn 1 (rank_all sc tagged)).
  { unfold ranking. apply select_top_rank_all. }
  assert (Hnew : In (length (entries idx), (c, similarity v v)) tagged).
  { apply Htag. rewrite Hsc, <- (scored_length v idx).
    rewrite lookup_app_r by lia. rewrite Nat.sub_diag. reflexivity. }
  destruct (rank_all sc tagged) as [|[pos best] rest] eqn:Er.
  { exfalso. apply (Permutation_in _ (Permutation_sym Hperm)) in Hnew. destruct Hnew. }
  inversion Hsorted as [|? ? _ Hall]; subst.
  rewrite List.Forall_forall in Hall.
  assert (Hhead : In (pos, best) tagged).
  { apply (Permutation_in _ Hperm). left. reflexivity. }
  assert (Hmax : forall p e, In (p, e) tagged -> score_le (snd e) (snd best) = true).
  { intros p e Hin. apply (Permutation_in _ (Permutation_sym Hperm)) in Hin.
    destruct Hin as [[= <- <-] | Hin]; [apply score_le_refl|].
    destruct (Hall _ Hin) as [Hle _]. exact Hle. }
  assert (Hself : score_le (similarity v v) (snd best) = true).
  { apply (Hmax _ _ Hnew). }
  assert (Hbest : score_le (snd best) (similarity v v) = true).
  { apply Htag in Hhead. apply list_elem_of_lookup_2, list_elem_of_In in Hhead.
    unfold scored in Hhead. apply in_map_iff in Hhead as (e & <- & _).
    apply self_similarity_max. }
  assert (Hsearch : search v 1 idx' = Success [best]).
  { rewrite (search_ranking v 1 idx' Hv), Hrank. reflexivity. }
  exists pos, best. split; [exact Hsearch|]. split; [apply Htag, Hhead|].
  split; [unfold tie; rewrite Hbest, Hself; reflexivity|].
  split; [|split; [|split]].
  - intros u. eapply score_le_trans; [apply self_similarity_max | exact Hself].
  - intros Hanti. apply Hanti. unfold tie. rewrite Hbest, Hself. reflexivity.
  - intros j p Hj Hp. apply Htag in Hp.
    apply (Permutation_in _ (Permutation_sym Hperm)) in Hp.
    destruct Hp as [[= -> _] | Hp]; [lia|].
    destruct (Hall _ Hp) as [_ Hpos]. unfold sc in Hpos. cbn [fst snd] in Hpos.
    destruct (score_le (snd best) (snd p)) eqn:Ebp; [|reflexivity].
    specialize (Hpos eq_refl). lia.
  - intros Hbelow.
    assert (Hdirect : search v 1 idx' = Success [(c, similarity v v)]).
    { unfold search. destruct (dimension idx') as [D'|] eqn:Ed.
      - rewrite (Hv D' Ed), Nat.eqb_refl. f_equal.
        rewrite select_top_rank_all, Hsc, rank_all_snoc, place_front; [reflexivity|].
        apply List.Forall_forall. intros y Hy.
        apply (Permutation_in _ (rank_all_perm snd (scored v idx))) in Hy.
        rewrite List.Forall_forall in Hbelow. apply Hbelow. exact Hy.
      - unfold dimension in Ed. rewrite Hent in Ed.
        destruct (entries idx); discriminate. }
    rewrite Hsearch in Hdirect. congruence.
Qed.
End AddThenSearch.

(** C5, as stated, fails: "add(chunk, v) and then search(queryVector = v,
    k = 1) returns exactly that entry".  When the index already holds an
    entry with the same vector, the two tie and the earlier one wins: after
    adding the Bamiyan chunk under the vector [1; 0] that the Kabul chunk is
    stored under, searching for [1; 0] returns the Kabul chunk. *)
Lemma add_then_search_returns_earlier_tie :
  @add inner_product_metric bamiyan [1; 0]%Z (mkIndex [entry kabul [1; 0]%Z])
  = (Success tt, mkIndex [entry kabul [1; 0]%Z; entry bamiyan [1; 0]%Z])
  /\ @search inner_product_metric [1; 0]%Z 1 (mkIndex [entry kabul [1; 0]%Z; entry bamiyan [1; 0]%Z])
     = Success [(kabul, 1%Z)]
  /\ @search inner_product_metric [1; 0]%Z 1 (mkIndex [entry kabul [1; 0]%Z; entry bamiyan [1; 0]%Z])
     <> Success [(bamiyan, dot [1; 0]%Z [1; 0]%Z)].
Proof.
  split; [reflexivity|]. split; [reflexivity|].
  intros Heq. vm_compute in Heq. discriminate Heq.
Qed.

(** A normalised metric that computes on integer vectors: the squared
    length of the query less the squared distance to the stored vector,
    [2 (q . u) - (u . u)].  On unit vectors it orders as the inner product
    (the cosine) does, and a vector is nearest to itself. *)
Definition nearness (q u : list Z) : Z := (2 * dot q u - dot u u)%Z.

Definition nearness_metric : Metric :=
  {| Coord := Z; Score := Z; similarity := nearness; score_le := Z.leb |}.

Lemma dot_self_nonneg (u : list Z) : (0 <= dot u u)%Z.
Proof. induction u as [|a u IH]; cbn [dot]; nia. Qed.

Lemma dot_le_squares (q u : list Z) : (2 * dot q u <= dot q q + dot u u)%Z.
Proof.
  revert u. induction q as [|a q IH]; intros u.
  - cbn [dot]. pose proof (dot_self_nonneg u). lia.
  - destruct u as [|b u]; cbn [dot].
    + pose proof (dot_self_nonneg q). nia.
    + specialize (IH u). pose proof (Z.square_nonneg (a - b)). lia.
Qed.

Global Instance nearness_order : MetricOrder nearness_metric.
Proof.
  split; cbn [Score score_le nearness_metric].
  - intros a b. rewrite !Z.leb_le. lia.
  - intros a b c. rewrite !Z.leb_le. lia.
Qed.

Global Instance nearness_self_max : MetricSelfMax nearness_metric.
Proof.
  split. cbn [Coord Score similarity score_le nearness_metric]. intros q u.
  apply Z.leb_le. unfold nearness. pose proof (dot_le_squares q u). lia.
Qed.

Lemma add_then_search_top1_witness :
  @search nearness_metric [0; 1]%Z 1
    (mkIndex [@mkEntry nearness_metric kabul [1; 0]%Z;
              @mkEntry nearness_metric bamiyan [0; 1]%Z])
  = Success [(bamiyan, 1%Z)].
Proof.
  destruct (@add_then_search_top1 nearness_metric nearness_order nearness_self_max
              bamiyan [0; 1]%Z (mkIndex [@mkEntry nearness_metric kabul [1; 0]%Z]) 2
              eq_refl eq_refl)
    as (_ & i & best & Hsearch & _ & _ & _ & _ & _ & Hbest).
  cbn [entries app] in Hsearch. rewrite Hsearch, Hbest; [reflexivity|].
  repeat constructor.
Defined.

Lemma search_sorted_and_bounded_witness :
  exists res : @RetrievalResult inner_product_metric,
    @search inner_product_metric [1; 0]%Z 1 scenario_index = Success res
    /\ length res <= 1
    /\ StronglySorted (fun a b => @score_le inner_product_metric (snd b) (snd a) = true) res
    /\ Forall (fun p => In p (@scored inner_product_metric [1; 0]%Z scenario_index)) res.
Proof.
  apply (@search_sorted_and_bounded inner_product_metric inner_product_order
           scenario_index [1; 0]%Z 1 2).
  - discriminate.
  - repeat constructor.
  - reflexivity.
Defined.

Lemma search_returns_all_when_k_exceeds_witness :
  @search inner_product_metric [1; 1]%Z 4 scenario_index
  = Success (map snd (@ranking inner_product_metric [1; 1]%Z 4 scenario_index))
  /\ Permutation (map fst (@ranking inner_product_metric [1; 1]%Z 4 scenario_index)) (seq 0 2)
  /\ Permutation (map snd (@ranking inner_product_metric [1; 1]%Z 4 scenario_index))
                 (@scored inner_product_metric [1; 1]%Z scenario_index)
  /\ NoDup (map fst (@ranking inner_product_metric [1; 1]%Z 4 scenario_index)).
Proof.
  apply (@search_returns_all_when_k_exceeds inner_product_metric
           scenario_index [1; 1]%Z 4).
  - intros D [= <-]. reflexivity.
  - cbn. lia.
Defined.

Lemma search_breaks_ties_by_insertion_order_witness :
  @search inner_product_metric [1; 1]%Z 2 scenario_index
  = Success (map snd (@ranking inner_product_metric [1; 1]%Z 2 scenario_index))
  /\ forall before after,
       @ranking inner_product_metric [1; 1]%Z 2 scenario_index = before ++ (1, (bamiyan, 1%Z)) :: after ->
       In (0, (kabul, 1%Z)) before.
Proof.
  apply (@search_breaks_ties_by_insertion_order inner_product_metric inner_product_order
           scenario_index [1; 1]%Z 2 0 1 (kabul, 1%Z) (bamiyan, 1%Z)).
  - intros D [= <-]. reflexivity.
  - reflexivity.
  - reflexivity.
  - lia.
  - reflexivity.
Defined.

(* ===================================================================== *)
(** * Part 5: the other cells *)
(* ===================================================================== *)

(** The classes whose objects answer [invoke] with generated text. *)
Definition is_model (o : Obj) : bool :=
  match o with
  | Ollama _ | ChatOpenAI _ _ => true
  | _ => false
  end.

(** The two questions of the loop cell.  They are written as a set, so the
    order in which the loop and the batch meet them is not fixed by the
    source; the cells below take that order as a list. *)
Definition notebook_questions : list str :=
  [lit "What are the languages of Afghanistan?";
   lit "How much is the population of Afghanistan"].

(** What the loop cell prints for questions and their answers: one
    [Question:] line and one [Answer:] line each. *)
Definition transcript (qas : list (str * str)) : list str :=
  flat_map (fun qa => [lit "Question: " ++ fst qa; lit "Answer: " ++ snd qa]) qas.

Section OtherCells.
Context `{Externals}.

(** The chain of the parser cell.
<<
    parser = StrOutputParser()
    chain = model | parser
    chain.invoke("Name 3 biggest cities of Afghanistan")
>> *)
Definition simple_chain (model : Value) : list Runnable :=
  [model_step model; StrOutputParser].


(** One turn of the loop cell: bind [question], print it, run the chain,
    print what it returns.  The last statement of the body is the bare name
    [print], which calls nothing.
<<
    for question in questions:
        print(f"Question: {question}")
        print(f"Answer: {chain.invoke({'question':question})}")
        print
>> *)
Definition ask (retriever : Retriever) (prompt : PromptTemplate) (model : Value)
           (question : str) : Cell unit :=
  store "question" (VStr question);;
  print (VStr (lit "Question: " ++ question));;
  out ← lift (chain_invoke retriever prompt model question);
  match out with
  | Scalar v => print (VStr (lit "Answer: " ++ py_str v))
  | Dict _ => lift (Raise (TypeError "mapping outside the embedded fragment"))
  end.

(** The [for] statement of the loop cell, over the questions in the order
    the set yields them.  The assignment [questions = {...}] that precedes
    it in the cell binds the name [questions], which has no counterpart
    here. *)
Fixpoint cell_questions (retriever : Retriever) (prompt : PromptTemplate)
         (model : Value) (order : list str) : Cell unit :=
  match order with
  | [] => cret tt
  | question :: rest =>
      ask retriever prompt model question;;
      cell_questions retriever prompt model rest
  end.
End OtherCells.

(** ** The model-selection cell, beyond a fresh gpt run *)

(** On the gpt path the cell raises at its last line, after its
    assignments: [model] and [embeddings] are bound to the OpenAI objects
    all the same, so the cells that follow find them. *)
Theorem init_cell_gpt_binds_model_and_embeddings `{Externals} (MODEL : str) :
  startswith MODEL (lit "gpt") = true ->
  construct (ChatOpenAI (getenv "OPENAI_API_KEY") MODEL) = Ok tt ->
  construct OpenAIEmbeddings = Ok tt ->
  globals (snd (run_init MODEL)) !! "model"
  = Some (VObj (ChatOpenAI (getenv "OPENAI_API_KEY") MODEL))
  /\ globals (snd (run_init MODEL)) !! "embeddings" = Some (VObj OpenAIEmbeddings).
Proof.
  intros Hgpt Hc1 Hc2. run_cell. rewrite Hgpt. revert Hc1.
  destruct (getenv "OPENAI_API_KEY") as [key|]; intros Hc1; run_cell.
  all: rewrite Hc1; run_cell; rewrite Hc2; run_cell; auto.
Qed.

Lemma init_cell_gpt_binds_model_and_embeddings_witness :
  globals (snd (@run_init echo_externals (lit "gpt-4"))) !! "model"
  = Some (VObj (ChatOpenAI None (lit "gpt-4")))
  /\ globals (snd (@run_init echo_externals (lit "gpt-4"))) !! "embeddings"
     = Some (VObj OpenAIEmbeddings).
Proof.
  apply (@init_cell_gpt_binds_model_and_embeddings echo_externals (lit "gpt-4"));
    reflexivity.
Defined.

(** In a kernel where [response] is still bound from an earlier run,
    running the settings cell with a gpt MODEL and then the model-selection
    cell completes when the two constructors of the gpt branch return: it
    prints that earlier value, and the gpt model is not asked anything. *)
Theorem init_cell_gpt_prints_stale_response `{Externals}
        (k : Kernel) (MODEL : str) (old : Value) :
  globals k !! "response" = Some old ->
  startswith MODEL (lit "gpt") = true ->
  construct (ChatOpenAI (getenv "OPENAI_API_KEY") MODEL) = Ok tt ->
  construct OpenAIEmbeddings = Ok tt ->
  fst ((cell_settings MODEL;; cell_init_model) k) = Ok tt
  /\ stdout (snd ((cell_settings MODEL;; cell_init_model) k)) = stdout k ++ [py_str old]
  /\ globals (snd ((cell_settings MODEL;; cell_init_model) k)) !! "response" = Some old.
Proof.
  destruct k as [g out]. cbn [globals stdout].
  intros Hold Hgpt Hc1 Hc2. run_cell. rewrite Hgpt. revert Hc1.
  destruct (getenv "OPENAI_API_KEY") as [key|]; intros Hc1; run_cell.
  all: rewrite Hc1; run_cell; rewrite Hc2; run_cell; rewrite Hold; run_cell.
  all: rewrite Hold; auto.
Qed.

Lemma init_cell_gpt_prints_stale_response_witness :
  stdout (snd ((@cell_settings echo_externals (lit "gpt-4");; @cell_init_model echo_externals)
                 (snd (@run_init echo_externals notebook_MODEL))))
  = [lit "Where is the capital city of Afghanistan?";
     lit "Where is the capital city of Afghanistan?"].
Proof.
  apply (@init_cell_gpt_prints_stale_response echo_externals
           (snd (@run_init echo_externals notebook_MODEL)) (lit "gpt-4")
           (VStr (lit "Where is the capital city of Afghanistan?")));
    reflexivity.
Defined.

(** Run before the settings cell, in a kernel that does not bind [MODEL],
    the model-selection cell raises [NameError] for [MODEL] at its first
    test, whatever the outside world does, and prints nothing. *)
Theorem init_cell_needs_settings_cell `{Externals} (k : Kernel) :
  globals k !! "MODEL" = None ->
  fst (cell_init_model k) = Raise (NameError "MODEL")
  /\ stdout (snd (cell_init_model k)) = stdout k
  /\ globals (snd (cell_init_model k)) !! "model" = globals k !! "model".
Proof.
  destruct k as [g out]. cbn [globals stdout].
  intros Hm. run_cell. rewrite Hm. run_cell. auto.
Qed.

Lemma init_cell_needs_settings_cell_witness :
  fst (@cell_init_model echo_externals fresh_kernel) = Raise (NameError "MODEL").
Proof.
  apply (@init_cell_needs_settings_cell echo_externals fresh_kernel). reflexivity.
Defined.

(** ** The chains of the parser cell and of the prompt cell *)

Section OtherChainFacts.
Context `{Externals}.

Lemma model_then_parser (o : Obj) (text : str) :
  is_model o = true ->
  rbind (model_invoke (VObj o) text) (fun r => StrOutputParser (Scalar r))
  = rbind (generate o text) (fun reply => Ok (Scalar (VStr reply))).
Proof.
  destruct o; try discriminate; intros _; cbn [model_invoke];
    destruct (generate _ text); reflexivity.
Qed.

(** With a completion model or a chat model alike, [model | parser] returns
    the generated text as a string and passes a generation error on; for a
    completion model the parser changes nothing, on any input. *)
Theorem simple_chain_returns_text (o : Obj) (text : str) :
  is_model o = true ->
  sequence_invoke (simple_chain (VObj o)) (Scalar (VStr text))
  = rbind (generate o text) (fun reply => Ok (Scalar (VStr reply)))
  /\ (forall (name : str) (x : Data),
        sequence_invoke (simple_chain (VObj (Ollama name))) x
        = model_step (VObj (Ollama name)) x).
Proof.
  intros Hm. split.
  - rewrite <- (model_then_parser o text Hm).
    unfold simple_chain. cbn [sequence_invoke model_step].
    destruct (model_invoke (VObj o) text) as [r | e]; cbn [rbind]; [|reflexivity].
    destruct (StrOutputParser (Scalar r)); reflexivity.
  - intros name x. unfold simple_chain. cbn [sequence_invoke].
    destruct x as [v | d]; [destruct v|]; cbn [model_step model_invoke rbind];
      try reflexivity.
    all: destruct (generate (Ollama name) _); reflexivity.
Qed.



(** What the retrieval chain does with a bad input or a failing retriever:
    a mapping without ["question"] raises [KeyError] for that key, an input
    that is no mapping raises [TypeError], and an exception of the
    retriever comes out as it is; none of them depends on the prompt or the
    model. *)
Theorem chain_input_errors (retriever : Retriever) (prompt : PromptTemplate)
        (model : Value) :
  (forall d : gmap string Value,
     d !! "question" = None ->
     sequence_invoke (chain retriever prompt model) (Dict d) = Raise (KeyError "question"))
  /\ (forall v : Value,
        sequence_invoke (chain retriever prompt model) (Scalar v)
        = Raise (TypeError "subscript"))
  /\ (forall (q : str) (e : PyExc),
        retriever q = Raise e -> chain_invoke retriever prompt model q = Raise e).
Proof.
  split; [|split].
  - intros d Hd. unfold chain, context_and_question, parallel_step.
    cbn [sequence_invoke parallel_invoke itemgetter]. rewrite Hd. reflexivity.
  - intros v. reflexivity.
  - intros q e Hr. rewrite chain_invoke_split. unfold chain_prompt.
    cbn [sequence_invoke]. rewrite context_and_question_eq, Hr. reflexivity.
Qed.

(** The answer of the retrieval chain is the text the model generates for
    the rendered prompt, as a string for either kind of model; a generation
    error comes out as it is. *)
Theorem chain_answers_with_model_reply
        (retriever : Retriever) (o : Obj) (q : str) (docs : list Document) :
  retriever q = Ok docs ->
  is_model o = true ->
  chain_invoke retriever notebook_prompt (VObj o) q
  = rbind (generate o (template_head ++ py_str (VDocs docs) ++ template_mid
                       ++ q ++ template_tail))
          (fun reply => Ok (Scalar (VStr reply))).
Proof.
  intros Hr Hm. rewrite chain_invoke_split, chain_prompt_eq, Hr.
  cbn [rbind model_step]. rewrite <- (model_then_parser o _ Hm).
  destruct (model_invoke (VObj o) _) as [r | e]; reflexivity.
Qed.
End OtherChainFacts.

Lemma simple_chain_returns_text_witness :
  @sequence_invoke (@simple_chain echo_externals (VObj (ChatOpenAI None (lit "gpt-4"))))
                   (Scalar (VStr (lit "Name 3 biggest cities of Afghanistan")))
  = Ok (Scalar (VStr (lit "Name 3 biggest cities of Afghanistan"))).
Proof.
  apply (@simple_chain_returns_text echo_externals (ChatOpenAI None (lit "gpt-4"))
           (lit "Name 3 biggest cities of Afghanistan") eq_refl).
Defined.

Lemma chain_answers_with_model_reply_witness :
  @chain_invoke echo_externals empty_retriever notebook_prompt llama (lit "tell me about Bamiyan")
  = Ok (Scalar (VStr (template_head ++ lit "[]" ++ template_mid
                      ++ lit "tell me about Bamiyan" ++ template_tail))).
Proof.
  apply (@chain_answers_with_model_reply echo_externals empty_retriever
           (Ollama notebook_MODEL) (lit "tell me about Bamiyan") [] eq_refl eq_refl).
Defined.

(** ** The loop cell *)

Section LoopFacts.
Context `{Externals}.
Variables (retriever : Retriever) (prompt : PromptTemplate) (model : Value).

Lemma ask_answered (q a : str) (k : Kernel) :
  chain_invoke retriever prompt model q = Ok (Scalar (VStr a)) ->
  ask retriever prompt model q k
  = (Ok tt, mkKernel (<["question" := VStr q]> (globals k))
                     (stdout k ++ transcript [(q, a)])).
Proof.
  intros Ha. cbv [ask mbind cell_bind cbind store print lift globals stdout].
  rewrite Ha. cbn [py_str transcript flat_map fst snd app].
  rewrite <- app_assoc. reflexivity.
Qed.

Lemma ask_raised (q : str) (e : PyExc) (k : Kernel) :
  chain_invoke retriever prompt model q = Raise e ->
  ask retriever prompt model q k
  = (Raise e, mkKernel (<["question" := VStr q]> (globals k))
                       (stdout k ++ [lit "Question: " ++ q])).
Proof.
  intros He. cbv [ask mbind cell_bind cbind store print lift globals stdout].
  rewrite He. reflexivity.
Qed.

Lemma transcript_app (l1 l2 : list (str * str)) :
  transcript (l1 ++ l2) = transcript l1 ++ transcript l2.
Proof. unfold transcript. apply flat_map_app. Qed.

Lemma cell_questions_answered (order answers : list str) (k : Kernel) :
  Forall2 (fun q a => chain_invoke retriever prompt model q = Ok (Scalar (VStr a)))
          order answers ->
  exists g,
    cell_questions retriever prompt model order k
    = (Ok tt, mkKernel g (stdout k ++ transcript (combine order answers)))
    /\ g !! "question" = match last order with
                         | Some q => Some (VStr q)
                         | None => globals k !! "question"
                         end
    /\ forall name, name <> "question" -> g !! name = globals k !! name.
Proof.
  intros Hall. revert k.
  induction Hall as [|q a order answers Hq _ IH]; intros k.
  - exists (globals k). cbn [cell_questions combine transcript flat_map].
    rewrite app_nil_r. destruct k. split; [reflexivity|]. split; [reflexivity|auto].
  - cbn [cell_questions]. unfold mbind, cell_bind, cbind.
    rewrite (ask_answered q a k Hq).
    destruct (IH (mkKernel (<["question" := VStr q]> (globals k))
                           (stdout k ++ transcript [(q, a)])))
      as (g & Hrun & Hlast & Hframe).
    exists g. rewrite Hrun. cbn [globals stdout] in *. split; [|split].
    + cbn [combine]. change ((q, a) :: combine order answers)
        with ([(q, a)] ++ combine order answers).
      rewrite transcript_app, app_assoc. reflexivity.
    + rewrite last_cons, Hlast. destruct (last order); [reflexivity|].
      apply lookup_insert_eq.
    + intros name Hname. rewrite (Hframe name Hname).
      apply lookup_insert_ne. congruence.
Qed.

Lemma cell_questions_app (l1 l2 : list str) (k : Kernel) :
  cell_questions retriever prompt model (l1 ++ l2) k
  = match cell_questions retriever prompt model l1 k with
    | (Ok _, k1) => cell_questions retriever prompt model l2 k1
    | (Raise e, k1) => (Raise e, k1)
    end.
Proof.
  revert k. induction l1 as [|q l1 IH]; intros k; [reflexivity|].
  cbn [cell_questions app]. unfold mbind, cell_bind, cbind.
  destruct (ask retriever prompt model q k) as [[[] | e] k1]; [apply IH | reflexivity].
Qed.

(** When the chain answers every question, the loop cell completes and
    prints, in the order it meets the questions, one [Question:] line and
    one [Answer:] line for each and nothing else (the bare [print] gives no
    blank line); it leaves [question] bound to the last question, and the
    loop leaves every name other than [question] and [questions] as it
    was. *)
Theorem loop_prints_questions_and_answers (order answers : list str) (k : Kernel) :
  Forall2 (fun q a => chain_invoke retriever prompt model q = Ok (Scalar (VStr a)))
          order answers ->
  fst (cell_questions retriever prompt model order k) = Ok tt
  /\ stdout (snd (cell_questions retriever prompt model order k))
     = stdout k ++ transcript (combine order answers)
  /\ (forall q, last order = Some q ->
       globals (snd (cell_questions retriever prompt model order k)) !! "question"
       = Some (VStr q))
  /\ (forall name, name <> "question" -> name <> "questions" ->
       globals (snd (cell_questions retriever prompt model order k)) !! name
       = globals k !! name).
Proof.
  intros Hall. destruct (cell_questions_answered order answers k Hall)
    as (g & Hrun & Hlast & Hframe).
  rewrite Hrun. cbn [fst snd globals stdout].
  split; [reflexivity|]. split; [reflexivity|].
  split; [|intros name Hname _; apply Hframe, Hname].
  intros q Hq. rewrite Hlast, Hq. reflexivity.
Qed.

(** When the chain raises on a question after answering the ones before
    it, the loop cell raises that exception there: the earlier questions and
    answers are printed, then the failing question's own [Question:] line
    and no answer for it, and the questions after it are not asked. *)
Theorem loop_stops_at_first_failure
        (answered answers rest : list str) (q : str) (e : PyExc) (k : Kernel) :
  Forall2 (fun q a => chain_invoke retriever prompt model q = Ok (Scalar (VStr a)))
          answered answers ->
  chain_invoke retriever prompt model q = Raise e ->
  fst (cell_questions retriever prompt model (answered ++ q :: rest) k) = Raise e
  /\ stdout (snd (cell_questions retriever prompt model (answered ++ q :: rest) k))
     = stdout k ++ transcript (combine answered answers) ++ [lit "Question: " ++ q]
  /\ globals (snd (cell_questions retriever prompt model (answered ++ q :: rest) k))
       !! "question" = Some (VStr q).
Proof.
  intros Hall He. rewrite cell_questions_app.
  destruct (cell_questions_answered answered answers k Hall) as (g & Hrun & _ & _).
  rewrite Hrun. cbn [cell_questions]. unfold mbind, cell_bind, cbind.
  rewrite (ask_raised q e _ He). cbn [fst snd globals stdout].
  split; [reflexivity|]. split; [rewrite app_assoc; reflexivity|].
  apply lookup_insert_eq.
Qed.
End LoopFacts.

Lemma loop_prints_questions_and_answers_witness :
  stdout (snd (@cell_questions echo_externals empty_retriever notebook_prompt llama
                 [lit "a"; lit "b"] fresh_kernel))
  = transcript
      [(lit "a", template_head ++ lit "[]" ++ template_mid ++ lit "a" ++ template_tail);
       (lit "b", template_head ++ lit "[]" ++ template_mid ++ lit "b" ++ template_tail)].
Proof.
  apply (@loop_prints_questions_and_answers echo_externals empty_retriever notebook_prompt
           llama [lit "a"; lit "b"]
           [template_head ++ lit "[]" ++ template_mid ++ lit "a" ++ template_tail;
            template_head ++ lit "[]" ++ template_mid ++ lit "b" ++ template_tail]
           fresh_kernel).
  repeat constructor.
Defined.

Lemma loop_stops_at_first_failure_witness :
  stdout (snd (@cell_questions echo_externals picky_retriever notebook_prompt llama
                 [lit "a"; lit "?"; lit "b"] fresh_kernel))
  = transcript
      [(lit "a", template_head ++ lit "[]" ++ template_mid ++ lit "a" ++ template_tail)]
    ++ [lit "Question: ?"].
Proof.
  apply (@loop_stops_at_first_failure echo_externals picky_retriever notebook_prompt llama
           [lit "a"]
           [template_head ++ lit "[]" ++ template_mid ++ lit "a" ++ template_tail]
           [lit "b"] (lit "?") (ExternalError "retriever") fresh_kernel).
  - repeat constructor.
  - reflexivity.
Defined.

(** ** Batches of any length, and templates other than the notebook's *)

Section BatchAndTemplateFacts.
Context `{Externals}.

(** For a list of questions of any length, the batch call returns exactly
    when the chain returns on every question; the results then come one per
    question, in the order of the questions.  An empty list gives an empty
    list without anything being called. *)
Theorem chain_batch_matches_invoke
        (retriever : Retriever) (prompt : PromptTemplate) (model : Value)
        (questions : list str) :
  (forall outs : list Data,
     chain_batch retriever prompt model questions = Ok outs
     <-> Forall2 (fun q a => chain_invoke retriever prompt model q = Ok a) questions outs)
  /\ (forall outs : list Data,
        chain_batch retriever prompt model questions = Ok outs ->
        length outs = length questions)
  /\ (questions = [] -> chain_batch retriever prompt model questions = Ok []).
Proof.
  assert (Hiff : forall outs : list Data,
             chain_batch retriever prompt model questions = Ok outs
             <-> Forall2 (fun q a => chain_invoke retriever prompt model q = Ok a)
                         questions outs).
  { intros outs. unfold chain_batch, chain_invoke. rewrite sequence_batch_spec.
    revert outs. induction questions as [|q qs IH]; intros outs; cbn [map].
    - split; intros Hf; inversion Hf; constructor.
    - split; intros Hf; inversion Hf; subst; constructor; try assumption;
        apply IH; assumption. }
  split; [exact Hiff|]. split.
  - intros outs Hb. apply Hiff in Hb. symmetry.
    eapply Forall2_length, Hb.
  - intros ->. apply Hiff. constructor.
Qed.


End BatchAndTemplateFacts.

